(** * ultaext: ultrasonic ranging drivers for the micro:bit

    A shallow embedding of [main.ts], which holds two MakeCode namespaces:
    [ultrasonic] (HC-SR04 style sensor, mean of the valid samples) and
    [ultrasonic33] (3.3 V sensor, retry ladder and median of the valid
    samples).

    Conventions of the embedding.
    - A TypeScript [number] is an exact rational ([Q]); NaN and the
      infinities are outside the model.  The engine computes in IEEE 754
      binary64, so a statement proved over [Q] is one about the code
      where it follows the code operation for operation or selects among
      values; [binary64.read] repeats [ultrasonic.read] with rounding
      arithmetic to show where an identity of exact arithmetic stops.
      Values that the code coerces with [x | 0] are 32-bit integers,
      carried as [Z] with the wrap-around written out.
    - The board is a log of the calls made to the MakeCode runtime
      ([pins], [control], [basic]) together with the answers of
      [pins.pulseIn]: the k-th call of a run receives [echo_in k].
    - The module-level [let] variables of a namespace are the fields of
      its [State]; every function is a state transformer over it. *)

From Stdlib Require Import ZArith QArith Qround Qfield List Bool Lia Lqa.
From Stdlib Require Import Permutation Sorted.
From Stdlib Require Import Floats.
From Stdlib Require Uint63.
Import ListNotations.

Local Open Scope Z_scope.

(** ** Numbers *)

Definition number := Q.

(** [a < b] on numbers, as a test. *)
Definition Qltb (a b : Q) : bool :=
  (Qnum a * QDen b <? Qnum b * QDen a)%Z.

(** [x | 0]: ToInt32 of ECMAScript, truncation toward zero followed by
    reduction modulo 2^32 into the signed range. *)
Definition truncate (x : number) : Z := Z.quot (Qnum x) (QDen x).

Definition wrap32 (z : Z) : Z := (z + 2 ^ 31) mod 2 ^ 32 - 2 ^ 31.

Definition ToInt32 (x : number) : Z := wrap32 (truncate x).

Module Math.
Definition max (a b : Z) : Z := Z.max a b.
Definition min (a b : Z) : Z := Z.min a b.
End Math.

(** ** The MakeCode runtime *)

Inductive DigitalPin : Set :=
  | P0 | P1 | P2 | P3 | P4 | P5 | P6 | P7 | P8 | P9 | P10
  | P11 | P12 | P13 | P14 | P15 | P16 | P19 | P20.

Inductive PulseValue : Set := High | Low.

Inductive PinPullMode : Set := PullDown | PullUp | PullNone.

(** What a run does to the board, in program order.  [RunHandler] marks
    the point where a user callback of a threshold watcher is entered;
    the callback's own code is not part of the driver. *)
Inductive Event : Type :=
  | DigitalWrite (name : DigitalPin) (value : Z)
  | SetPull (name : DigitalPin) (pull : PinPullMode)
  | WaitMicros (micros : Z)
  | PulseIn (name : DigitalPin) (value : PulseValue) (maxDuration : Z)
            (duration : Z)
  | Pause (ms : Z)
  | RunHandler (handler : nat) (currentCm : number).

Record Hw : Type := mkHw {
  echo_in : nat -> Z;      (* answer of the k-th pulseIn of the run *)
  n_pulse : nat;           (* pulseIn calls made so far *)
  log : list Event         (* calls made so far, oldest first *)
}.

Definition hw_emit (e : Event) (h : Hw) : Hw :=
  mkHw (echo_in h) (n_pulse h) (log h ++ [e]).

Definition hw_pulseIn (name : DigitalPin) (value : PulseValue)
    (maxDuration : Z) (h : Hw) : Z * Hw :=
  let d := echo_in h (n_pulse h) in
  (d, mkHw (echo_in h) (S (n_pulse h))
           (log h ++ [PulseIn name value maxDuration d])).

(** State transformers. *)
Definition M (S A : Type) : Type := S -> A * S.

Definition ret {S A : Type} (a : A) : M S A := fun s => (a, s).

Definition bind {S A B : Type} (c : M S A) (k : A -> M S B) : M S B :=
  fun s => let (a, s') := c s in k a s'.

Declare Scope drv_scope.
Delimit Scope drv_scope with drv.
Notation "x <- c ;; k" := (bind c (fun x => k))
  (at level 61, c at next level, right associativity) : drv_scope.
Notation "c ;; k" := (bind c (fun _ => k))
  (at level 61, right associativity) : drv_scope.

(** A namespace state gives access to the board. *)
Class Board (S : Type) : Type := {
  board : S -> Hw;
  with_board : Hw -> S -> S
}.

Section Runtime.
Context {S : Type} `{Board S}.

(** Reading a module-level variable. *)
Definition get {A : Type} (field : S -> A) : M S A := fun s => (field s, s).

Definition emit (e : Event) : M S unit :=
  fun s => (tt, with_board (hw_emit e (board s)) s).

Definition digitalWritePin (name : DigitalPin) (value : Z) : M S unit :=
  emit (DigitalWrite name value).

Definition setPull (name : DigitalPin) (pull : PinPullMode) : M S unit :=
  emit (SetPull name pull).

Definition pulseIn (name : DigitalPin) (value : PulseValue)
    (maxDuration : Z) : M S Z :=
  fun s => let (d, h) := hw_pulseIn name value maxDuration (board s) in
           (d, with_board h s).

Definition waitMicros (micros : Z) : M S unit := emit (WaitMicros micros).

Definition pause (ms : Z) : M S unit := emit (Pause ms).

(** [for (let i = 0; i < n; i++) body], the locals that the body
    updates threaded as [acc]; [n] is the number of [i >= start] that
    pass the test. *)
Fixpoint for_loop {A : Type} (n : nat) (i : Z) (body : Z -> A -> M S A)
    (acc : A) : M S A :=
  match n with
  | O => ret acc
  | Datatypes.S n' =>
      (acc' <- body i acc ;; for_loop n' (i + 1) body acc')%drv
  end.
End Runtime.

(** Iterations of [for (let i = 0; i < samples; i++)]. *)
Definition trip_count (samples : number) : nat := Z.to_nat (Qceiling samples).

(** [vals.sort((a, b) => a - b)]: the engine's algorithm is not fixed by
    the language; an insertion sort driven by the sign of the comparator
    stands for it. *)
Module Array.
Fixpoint insert (compareFn : number -> number -> number) (x : number)
    (l : list number) : list number :=
  match l with
  | [] => [x]
  | y :: t =>
      if Qle_bool (compareFn x y) 0 then x :: y :: t
      else y :: insert compareFn x t
  end.

Definition sort (compareFn : number -> number -> number)
    (l : list number) : list number :=
  fold_right (insert compareFn) [] l.

Definition push (l : list number) (x : number) : list number := l ++ [x].
End Array.

(** ** namespace ultrasonic *)

Module ultrasonic.

Inductive Unit : Set := Centimeters | Inches.

(** A background fiber started by [onDistanceLessThan]: its closure
    holds the clamped threshold and the handler. *)
Record Fiber : Type := mkFiber { f_threshold : Z; f_handler : nat }.

Record State : Type := mkState {
  _trig : DigitalPin;
  _echo : DigitalPin;
  _maxUs : Z;
  _polling : bool;
  fibers : list Fiber;
  hw : Hw
}.

#[global] Instance State_Board : Board State := {
  board := hw;
  with_board h s :=
    mkState (_trig s) (_echo s) (_maxUs s) (_polling s) (fibers s) h
}.

Definition init (h : Hw) : State := mkState P1 P0 25000 false [] h.

Definition set_pins (trig echo : DigitalPin) : M State unit :=
  fun s => (tt, mkState trig echo (_maxUs s) (_polling s) (fibers s) (hw s)).

Definition set_maxUs (v : Z) : M State unit :=
  fun s => (tt, mkState (_trig s) (_echo s) v (_polling s) (fibers s) (hw s)).

Definition set_polling (b : bool) : M State unit :=
  fun s => (tt, mkState (_trig s) (_echo s) (_maxUs s) b (fibers s) (hw s)).

(** [control.inBackground]: the fiber joins the scheduler's set. *)
Definition inBackground (f : Fiber) : M State unit :=
  fun s => (tt, mkState (_trig s) (_echo s) (_maxUs s) (_polling s)
                        (fibers s ++ [f]) (hw s)).

Local Open Scope drv_scope.

Definition setPins (trig echo : DigitalPin) : M State unit :=
  set_pins trig echo ;;
  e <- get _echo ;; setPull e PullNone ;;
  t <- get _trig ;; digitalWritePin t 0 ;;
  waitMicros 5.

Definition setMaxMicros (maxMicros : number) : M State unit :=
  set_maxUs (Math.max 3000 (Math.min 40000 (ToInt32 maxMicros))).

Definition measureOnceCm : M State number :=
  t <- get _trig ;; digitalWritePin t 0 ;;
  waitMicros 2 ;;
  t <- get _trig ;; digitalWritePin t 1 ;;
  waitMicros 10 ;;
  t <- get _trig ;; digitalWritePin t 0 ;;
  e <- get _echo ;; m <- get _maxUs ;;
  d <- pulseIn e High m ;;
  if d <=? 0 then ret 0%Q
  else
    let cm := (inject_Z d / 58)%Q in
    ret cm.

(** One turn of the loop of [read] on the locals [sum] and [cnt]. *)
Definition read_body (acc : number * Z) : M State (number * Z) :=
  let '(sum, cnt) := acc in
  cm <- measureOnceCm ;;
  let '(sum, cnt) :=
    if Qltb 0 cm then ((sum + cm)%Q, cnt + 1) else (sum, cnt) in
  pause 10 ;;
  ret (sum, cnt).

Definition read (unit : Unit) (samples : number) : M State number :=
  let samples := Math.max 1 (Math.min 10 (ToInt32 samples)) in
  acc <- for_loop (Z.to_nat samples) 0 (fun _ => read_body) (0%Q, 0) ;;
  let '(sum, cnt) := acc in
  let cmAvg := if 0 <? cnt then (sum / inject_Z cnt)%Q else 0%Q in
  match unit with
  | Inches => ret (cmAvg / (254 # 100))%Q
  | Centimeters => ret cmAvg
  end.

(** [read] with arguments left out: [unit = Unit.Centimeters],
    [samples = 3]. *)
Definition read_defaults (unit : option Unit) (samples : option number)
    : M State number :=
  read (match unit with Some u => u | None => Centimeters end)
       (match samples with Some n => n | None => 3%Q end).

Definition distanceCm : M State number := read Centimeters 1%Q.

(** The body of the [while (true)] loop of a watcher fiber. *)
Definition poll (f : Fiber) : M State unit :=
  cm <- distanceCm ;;
  (if Qltb 0 cm && Qltb cm (inject_Z (f_threshold f))
   then emit (RunHandler (f_handler f) cm) else ret tt) ;;
  pause 50.

Definition onDistanceLessThan (threshold : number) (handler : nat)
    : M State unit :=
  let threshold := Math.max 2 (Math.min 400 (ToInt32 threshold)) in
  p <- get _polling ;;
  if p then
    inBackground (mkFiber threshold handler)
  else
    set_polling true ;;
    inBackground (mkFiber threshold handler).

End ultrasonic.

(** ** namespace ultrasonic33 *)

Module ultrasonic33.

Inductive Unit : Set := Centimeters | Inches.

Record State : Type := mkState {
  _trig : DigitalPin;
  _echo : DigitalPin;
  _maxUs : Z;
  _settleUs : Z;
  hw : Hw
}.

#[global] Instance State_Board : Board State := {
  board := hw;
  with_board h s := mkState (_trig s) (_echo s) (_maxUs s) (_settleUs s) h
}.

Definition init (h : Hw) : State := mkState P1 P2 40000 600 h.

Definition set_pins (trig echo : DigitalPin) : M State unit :=
  fun s => (tt, mkState trig echo (_maxUs s) (_settleUs s) (hw s)).

Definition set_timing (maxUs settleUs : Z) : M State unit :=
  fun s => (tt, mkState (_trig s) (_echo s) maxUs settleUs (hw s)).

Local Open Scope drv_scope.

Definition setPins (trig echo : DigitalPin) : M State unit :=
  set_pins trig echo ;;
  e <- get _echo ;; setPull e PullNone ;;
  t <- get _trig ;; digitalWritePin t 0 ;;
  pause 10.

Definition setTiming (maxMicros settleMicros : number) : M State unit :=
  set_timing (Math.max 15000 (Math.min 60000 (ToInt32 maxMicros)))
             (Math.max 100 (Math.min 2000 (ToInt32 settleMicros))).

Definition measureOnceCmRobust : M State number :=
  t <- get _trig ;; digitalWritePin t 0 ;;
  waitMicros 4 ;;
  t <- get _trig ;; digitalWritePin t 1 ;;
  waitMicros 30 ;;
  t <- get _trig ;; digitalWritePin t 0 ;;
  u <- get _settleUs ;; waitMicros u ;;
  e <- get _echo ;; m <- get _maxUs ;;
  dur <- pulseIn e High m ;;
  dur <- (if dur <=? 0 then
            e <- get _echo ;; m <- get _maxUs ;; pulseIn e Low m
          else ret dur) ;;
  dur <- (if dur <=? 0 then
            waitMicros 200 ;;
            t <- get _trig ;; digitalWritePin t 1 ;;
            waitMicros 20 ;;
            t <- get _trig ;; digitalWritePin t 0 ;;
            u <- get _settleUs ;; waitMicros u ;;
            e <- get _echo ;; m <- get _maxUs ;;
            dur <- pulseIn e High m ;;
            if dur <=? 0 then
              e <- get _echo ;; m <- get _maxUs ;; pulseIn e Low m
            else ret dur
          else ret dur) ;;
  if dur <=? 0 then ret 0%Q
  else ret (inject_Z dur / 58)%Q.

(** One turn of the loop of [distance] on the local [vals]. *)
Definition distance_body (vals : list number) : M State (list number) :=
  cm <- measureOnceCmRobust ;;
  let vals := if Qltb 0 cm then Array.push vals cm else vals in
  pause 20 ;;
  ret vals.

Definition distance (unit : Unit) (samples : number) : M State number :=
  vals <- for_loop (trip_count samples) 0 (fun _ => distance_body) [] ;;
  if (length vals =? 0)%nat then ret 0%Q
  else
    let vals := Array.sort (fun a b => a - b)%Q vals in
    let med := nth (Z.to_nat (Z.shiftr (Z.of_nat (length vals)) 1)) vals 0%Q in
    match unit with
    | Inches => ret (med / (254 # 100))%Q
    | Centimeters => ret med
    end.

(** [distance] with arguments left out: [unit = Unit.Centimeters],
    [samples = 5]. *)
Definition distance_defaults (unit : option Unit) (samples : option number)
    : M State number :=
  distance (match unit with Some u => u | None => Centimeters end)
           (match samples with Some n => n | None => 5%Q end).

End ultrasonic33.

(** ** [ultrasonic.read] in binary64

    The code of [ultrasonic.measureOnceCm] and [ultrasonic.read] once
    more, on the same board, with the arithmetic of [number] as the engine
    carries it out: every [+] and [/] rounds to the nearest binary64
    number. *)

Module binary64.

Definition float := PrimFloat.float.

(** An integer of the code as a binary64 number; exact below 2^53. *)
Definition of_int (z : Z) : float :=
  if z <? 0 then PrimFloat.opp (PrimFloat.of_uint63 (Uint63.of_Z (- z)))
  else PrimFloat.of_uint63 (Uint63.of_Z z).

(** The literal [2.54]: the binary64 number nearest to 254 / 100. *)
Definition c2_54 : float := 0x1.451eb851eb852p+1%float.

Local Open Scope drv_scope.

Definition measureOnceCm : M ultrasonic.State float :=
  t <- get ultrasonic._trig ;; digitalWritePin t 0 ;;
  waitMicros 2 ;;
  t <- get ultrasonic._trig ;; digitalWritePin t 1 ;;
  waitMicros 10 ;;
  t <- get ultrasonic._trig ;; digitalWritePin t 0 ;;
  e <- get ultrasonic._echo ;; m <- get ultrasonic._maxUs ;;
  d <- pulseIn e High m ;;
  if d <=? 0 then ret 0%float
  else
    let cm := PrimFloat.div (of_int d) 58%float in
    ret cm.

Definition read_body (acc : float * Z) : M ultrasonic.State (float * Z) :=
  let '(sum, cnt) := acc in
  cm <- measureOnceCm ;;
  let '(sum, cnt) :=
    if PrimFloat.ltb 0%float cm then (PrimFloat.add sum cm, cnt + 1)
    else (sum, cnt) in
  pause 10 ;;
  ret (sum, cnt).

Definition read (unit : ultrasonic.Unit) (samples : number)
    : M ultrasonic.State float :=
  let samples := Math.max 1 (Math.min 10 (ToInt32 samples)) in
  acc <- for_loop (Z.to_nat samples) 0 (fun _ => read_body) (0%float, 0) ;;
  let '(sum, cnt) := acc in
  let cmAvg := if 0 <? cnt then PrimFloat.div sum (of_int cnt) else 0%float in
  match unit with
  | ultrasonic.Inches => ret (PrimFloat.div cmAvg c2_54)
  | ultrasonic.Centimeters => ret cmAvg
  end.

End binary64.

(** ** Boards for concrete runs *)

Definition echo_const (d : Z) : nat -> Z := fun _ => d.
Definition echo_list (l : list Z) : nat -> Z := fun k => nth k l 0.
Definition hw0 (e : nat -> Z) : Hw := mkHw e 0 [].

(** * Vocabulary of the statements *)

(** Distance of one echo time; a time-out is the sentinel 0. *)
Definition cm_of (d : Z) : number :=
  if d <=? 0 then 0%Q else (inject_Z d / 58)%Q.

(** The answers that the next [k] calls of [pulseIn] will receive. *)
Definition next_pulses (h : Hw) (k : nat) : list Z :=
  map (fun j => echo_in h (n_pulse h + j)%nat) (seq 0 k).

(** The samples that count: those strictly above 0. *)
Definition valid (l : list number) : list number := filter (Qltb 0) l.

Definition Qsum (l : list number) : number := fold_left Qplus l 0%Q.

(** Arithmetic mean, 0 for the empty list. *)
Definition mean (l : list number) : number :=
  let cnt := Z.of_nat (length l) in
  if 0 <? cnt then (Qsum l / inject_Z cnt)%Q else 0%Q.

Definition inches (cm : number) : number := (cm / (254 # 100))%Q.

(** Board calls of one single shot. *)
Definition shot_events (trig echo : DigitalPin) (maxUs d : Z) : list Event :=
  [DigitalWrite trig 0; WaitMicros 2; DigitalWrite trig 1; WaitMicros 10;
   DigitalWrite trig 0; PulseIn echo High maxUs d].

(** Board calls of [k] turns of the sampling loop. *)
Definition batch_events (trig echo : DigitalPin) (maxUs : Z) (ds : list Z)
    : list Event :=
  flat_map (fun d => shot_events trig echo maxUs d ++ [Pause 10]) ds.

(** A state of [ultrasonic] with another board. *)
Definition with_hw (s : ultrasonic.State) (h : Hw) : ultrasonic.State :=
  ultrasonic.mkState (ultrasonic._trig s) (ultrasonic._echo s)
    (ultrasonic._maxUs s) (ultrasonic._polling s) (ultrasonic.fibers s) h.

(** The comparator [(a, b) => a - b]. *)
Definition ascending (a b : number) : number := (a - b)%Q.

(** The reading that the ladder keeps out of four answers: the first
    positive one, or the last. *)
Definition kept (d1 d2 d3 d4 : Z) : Z :=
  if 0 <? d1 then d1 else if 0 <? d2 then d2 else if 0 <? d3 then d3 else d4.

(** Number of [pulseIn] calls that the ladder makes. *)
Definition attempts (d1 d2 d3 : Z) : nat :=
  if 0 <? d1 then 1 else if 0 <? d2 then 2 else if 0 <? d3 then 3 else 4.

Definition trigger30 (trig : DigitalPin) (settleUs : Z) : list Event :=
  [DigitalWrite trig 0; WaitMicros 4; DigitalWrite trig 1; WaitMicros 30;
   DigitalWrite trig 0; WaitMicros settleUs].

Definition retrigger20 (trig : DigitalPin) (settleUs : Z) : list Event :=
  [WaitMicros 200; DigitalWrite trig 1; WaitMicros 20; DigitalWrite trig 0;
   WaitMicros settleUs].

(** Board calls of one robust single shot, by the answers received. *)
Definition ladder_events (trig echo : DigitalPin) (maxUs settleUs : Z)
    (d1 d2 d3 d4 : Z) : list Event :=
  trigger30 trig settleUs ++
  PulseIn echo High maxUs d1 ::
  (if 0 <? d1 then [] else
   PulseIn echo Low maxUs d2 ::
   (if 0 <? d2 then [] else
    retrigger20 trig settleUs ++
    PulseIn echo High maxUs d3 ::
    (if 0 <? d3 then [] else [PulseIn echo Low maxUs d4]))).

(** A state of [ultrasonic33] with another board. *)
Definition with_hw33 (s : ultrasonic33.State) (h : Hw) : ultrasonic33.State :=
  ultrasonic33.mkState (ultrasonic33._trig s) (ultrasonic33._echo s)
    (ultrasonic33._maxUs s) (ultrasonic33._settleUs s) h.

(** The sampling loop of [distance], from the empty [vals]. *)
Definition collect (samples : number)
    : M ultrasonic33.State (list number) :=
  for_loop (trip_count samples) 0 (fun _ => ultrasonic33.distance_body) [].

(** The element that [distance] picks: index [length >> 1] of the
    sorted samples, 0 when there is none. *)
Definition upper_middle (vals : list number) : number :=
  nth (length vals / 2) (Array.sort ascending vals) 0%Q.

(** Inter-sample pauses on a log: one follows every single shot of an
    aggregate call. *)
Definition is_pause (ms : Z) (e : Event) : bool :=
  match e with Pause m => m =? ms | _ => false end.

Definition pauses (ms : Z) (l : list Event) : nat :=
  length (filter (is_pause ms) l).

(** Polarities of the [pulseIn] calls on a log, in order. *)
Definition polarities (l : list Event) : list PulseValue :=
  flat_map (fun e => match e with PulseIn _ v _ _ => [v] | _ => [] end) l.

(** Handler entries on a log, in order. *)
Definition handler_runs (l : list Event) : list (nat * number) :=
  flat_map (fun e => match e with RunHandler h cm => [(h, cm)] | _ => [] end) l.

(** What a piece of a run added to the board log. *)
Definition events_since (before after : list Event) : list Event :=
  skipn (length before) after.

(** The threshold clamped as a number, without the integer coercion. *)
Definition clamp_number (lo hi x : number) : number :=
  if Qltb x lo then lo else if Qltb hi x then hi else x.

(** A schedule of watcher turns, taken in order. *)
Fixpoint run_turns (schedule : list ultrasonic.Fiber)
    : M ultrasonic.State unit :=
  match schedule with
  | [] => ret tt
  | f :: rest => bind (ultrasonic.poll f) (fun _ => run_turns rest)
  end.

(** What can happen to [ultrasonic] during a run: the program calls the
    interface, or the scheduler gives a turn to a registered watcher.  A
    call or a turn is one step; the yields inside it are not modelled. *)
Inductive step : ultrasonic.State -> ultrasonic.State -> Prop :=
  | step_setPins trig echo s :
      step s (snd (ultrasonic.setPins trig echo s))
  | step_setMaxMicros maxMicros s :
      step s (snd (ultrasonic.setMaxMicros maxMicros s))
  | step_read unit samples s :
      step s (snd (ultrasonic.read unit samples s))
  | step_distanceCm s :
      step s (snd (ultrasonic.distanceCm s))
  | step_onDistanceLessThan threshold handler s :
      step s (snd (ultrasonic.onDistanceLessThan threshold handler s))
  | step_turn f s :
      In f (ultrasonic.fibers s) -> step s (snd (ultrasonic.poll f s)).

(** States of [ultrasonic] that a run can be in, from power-up on a board
    whose [pulseIn] answers are [e]. *)
Inductive reachable (e : nat -> Z) : ultrasonic.State -> Prop :=
  | reachable_init : reachable e (ultrasonic.init (hw0 e))
  | reachable_step s s' : reachable e s -> step s s' -> reachable e s'.

(** The stored timeout and every stored threshold are in range, and every
    handler entry on the log carries a distance between 0 and 400. *)
Definition wellformed (s : ultrasonic.State) : Prop :=
  3000 <= ultrasonic._maxUs s <= 40000 /\
  Forall (fun f => 2 <= ultrasonic.f_threshold f <= 400) (ultrasonic.fibers s) /\
  Forall (fun run => (0 < snd run /\ snd run < 400)%Q)
         (handler_runs (log (ultrasonic.hw s))).

Inductive step33 : ultrasonic33.State -> ultrasonic33.State -> Prop :=
  | step33_setPins trig echo r :
      step33 r (snd (ultrasonic33.setPins trig echo r))
  | step33_setTiming maxMicros settleMicros r :
      step33 r (snd (ultrasonic33.setTiming maxMicros settleMicros r))
  | step33_distance unit samples r :
      step33 r (snd (ultrasonic33.distance unit samples r)).

Inductive reachable33 (e : nat -> Z) : ultrasonic33.State -> Prop :=
  | reachable33_init : reachable33 e (ultrasonic33.init (hw0 e))
  | reachable33_step r r' : reachable33 e r -> step33 r r' -> reachable33 e r'.

Definition wellformed33 (r : ultrasonic33.State) : Prop :=
  15000 <= ultrasonic33._maxUs r <= 60000 /\
  100 <= ultrasonic33._settleUs r <= 2000.

(** The board calls that the standard variant may make when it measures
    with trigger [trig], echo [echo] and time-out [maxUs]. *)
Definition std_event (trig echo : DigitalPin) (maxUs : Z) (e : Event) : Prop :=
  match e with
  | DigitalWrite p v => p = trig /\ (v = 0 \/ v = 1)
  | WaitMicros m => m = 2 \/ m = 10
  | PulseIn p v m _ => p = echo /\ v = High /\ m = maxUs
  | Pause m => m = 10
  | SetPull _ _ | RunHandler _ _ => False
  end.

(** The same for the robust variant, which also waits [settleUs]. *)
Definition robust_event (trig echo : DigitalPin) (maxUs settleUs : Z)
    (e : Event) : Prop :=
  match e with
  | DigitalWrite p v => p = trig /\ (v = 0 \/ v = 1)
  | WaitMicros m => In m [4; 30; 200; 20; settleUs]
  | PulseIn p _ m _ => p = echo /\ m = maxUs
  | Pause m => m = 20
  | SetPull _ _ | RunHandler _ _ => False
  end.

(** The last level written to a pin on a log, with the pin. *)
Fixpoint last_write (l : list Event) : option (DigitalPin * Z) :=
  match l with
  | [] => None
  | e :: t =>
      match last_write t with
      | Some w => Some w
      | None =>
          match e with
          | DigitalWrite p v => Some (p, v)
          | _ => None
          end
      end
  end.

(** Registrations of watchers, made in order. *)
Fixpoint register_all (regs : list (number * nat))
    : M ultrasonic.State unit :=
  match regs with
  | [] => ret tt
  | (threshold, handler) :: rest =>
      bind (ultrasonic.onDistanceLessThan threshold handler)
           (fun _ => register_all rest)
  end.

(** The fiber that a registration starts. *)
Definition fiber_of (reg : number * nat) : ultrasonic.Fiber :=
  ultrasonic.mkFiber (Math.max 2 (Math.min 400 (ToInt32 (fst reg)))) (snd reg).

(** How many numbers of a list pass a test. *)
Definition count (f : number -> bool) (l : list number) : nat :=
  length (filter f l).

(** A number that [x | 0] does not wrap. *)
Definition in_int32 (x : number) : Prop :=
  (inject_Z (- 2 ^ 31) <= x < inject_Z (2 ^ 31))%Q.

(** [x | 0] followed by a clamp, on a number that does not wrap: the
    nearest bound outside [lo, hi], the integer part inside. *)
Definition saturate (lo hi : Z) (x : number) : Z :=
  if Qltb x (inject_Z lo) then lo
  else if Qltb (inject_Z hi) x then hi
  else Qfloor x.

(** The sampling loop of [distance] in closed form, for [k] turns on a
    board whose next pulse measurement is the [n]-th: the index of the
    measurement after the loop, the samples it keeps and the board calls
    it makes. *)
Fixpoint loop_pulses (e : nat -> Z) (k n : nat) : nat :=
  match k with
  | O => n
  | S k' =>
      loop_pulses e k' (attempts (e n) (e (1 + n)%nat) (e (2 + n)%nat) + n)
  end.

Fixpoint loop_vals (e : nat -> Z) (k n : nat) : list number :=
  match k with
  | O => []
  | S k' =>
      let d := kept (e n) (e (1 + n)%nat) (e (2 + n)%nat) (e (3 + n)%nat) in
      (if 0 <? d then [cm_of d] else []) ++
      loop_vals e k' (attempts (e n) (e (1 + n)%nat) (e (2 + n)%nat) + n)
  end.

Fixpoint loop_events (trig echo : DigitalPin) (maxUs settleUs : Z)
    (e : nat -> Z) (k n : nat) : list Event :=
  match k with
  | O => []
  | S k' =>
      ladder_events trig echo maxUs settleUs
        (e n) (e (1 + n)%nat) (e (2 + n)%nat) (e (3 + n)%nat) ++
      [Pause 20] ++
      loop_events trig echo maxUs settleUs e k'
        (attempts (e n) (e (1 + n)%nat) (e (2 + n)%nat) + n)
  end.

(** Distance of one echo time in binary64. *)
Definition cm64 (d : Z) : binary64.float :=
  if d <=? 0 then 0%float
  else PrimFloat.div (binary64.of_int d) 58%float.

(** Arithmetic mean in binary64, summed from the left as [read] does. *)
Definition mean64 (l : list binary64.float) : binary64.float :=
  PrimFloat.div (fold_left PrimFloat.add l 0%float)
                (binary64.of_int (Z.of_nat (length l))).

(** * Properties *)

(** ** Numbers and coercions *)

Lemma Qltb_lt (a b : Q) : Qltb a b = true <-> (a < b)%Q.
Proof. unfold Qltb, Qlt. apply Z.ltb_lt. Qed.

Lemma Qltb_ge (a b : Q) : Qltb a b = false <-> (b <= a)%Q.
Proof. unfold Qltb, Qle. apply Z.ltb_ge. Qed.

Lemma clamp_range (lo hi z : Z) :
  lo <= hi -> lo <= Math.max lo (Math.min hi z) <= hi.
Proof. unfold Math.max, Math.min. lia. Qed.

Lemma clamp_id (lo hi z : Z) :
  lo <= z <= hi -> Math.max lo (Math.min hi z) = z.
Proof. unfold Math.max, Math.min. lia. Qed.

Lemma clamp_below (lo hi z : Z) :
  lo <= hi -> z <= lo -> Math.max lo (Math.min hi z) = lo.
Proof. unfold Math.max, Math.min. lia. Qed.

Lemma clamp_above (lo hi z : Z) :
  lo <= hi -> hi <= z -> Math.max lo (Math.min hi z) = hi.
Proof. unfold Math.max, Math.min. lia. Qed.

Lemma wrap32_range (z : Z) : - 2 ^ 31 <= wrap32 z < 2 ^ 31.
Proof.
  unfold wrap32.
  assert (0 <= (z + 2 ^ 31) mod 2 ^ 32 < 2 ^ 32) by (apply Z.mod_pos_bound; lia).
  lia.
Qed.

Lemma wrap32_id (z : Z) : - 2 ^ 31 <= z < 2 ^ 31 -> wrap32 z = z.
Proof.
  intros Hz. unfold wrap32. rewrite Z.mod_small by lia. lia.
Qed.

Lemma truncate_inject_Z (z : Z) : truncate (inject_Z z) = z.
Proof. unfold truncate. simpl. apply Z.quot_1_r. Qed.

Lemma ToInt32_inject_Z (z : Z) :
  - 2 ^ 31 <= z < 2 ^ 31 -> ToInt32 (inject_Z z) = z.
Proof.
  intros Hz. unfold ToInt32. rewrite truncate_inject_Z. now apply wrap32_id.
Qed.

(** The loop test [i < samples] holds for exactly the first
    [trip_count samples] values of [i]. *)
Lemma trip_count_test (samples : number) (i : Z) :
  0 <= i ->
  Qltb (inject_Z i) samples = true <-> (Z.to_nat i < trip_count samples)%nat.
Proof.
  intros Hi. rewrite Qltb_lt. unfold trip_count.
  pose proof (Qle_ceiling samples) as Hup.
  pose proof (Qceiling_lt samples) as Hlo.
  split.
  - intros Hlt.
    assert (inject_Z i < inject_Z (Qceiling samples))%Q as H
      by (eapply Qlt_le_trans; eauto).
    rewrite <- Zlt_Qlt in H. lia.
  - intros Hlt.
    assert (i <= Qceiling samples - 1) as H by lia.
    rewrite Zle_Qle in H. eapply Qle_lt_trans; eauto.
Qed.

(** The same for the integer count of [read]. *)
Lemma int_count_test (samples i : Z) :
  0 <= i -> (i <? samples) = true <-> (Z.to_nat i < Z.to_nat samples)%nat.
Proof. intros Hi. rewrite Z.ltb_lt. lia. Qed.

(** ** The standard variant: single shot and the sampling loop *)

Lemma next_pulses_S (h : Hw) (k : nat) :
  next_pulses h (S k) =
  echo_in h (n_pulse h) ::
  next_pulses (mkHw (echo_in h) (S (n_pulse h)) (log h)) k.
Proof.
  unfold next_pulses. simpl. rewrite Nat.add_0_r. f_equal.
  rewrite <- seq_shift, map_map. apply map_ext. intros j.
  now rewrite Nat.add_succ_r.
Qed.

Lemma next_pulses_log (e : nat -> Z) (n : nat) (l l' : list Event) (k : nat) :
  next_pulses (mkHw e n l) k = next_pulses (mkHw e n l') k.
Proof. reflexivity. Qed.

Lemma next_pulses_length (h : Hw) (k : nat) : length (next_pulses h k) = k.
Proof. unfold next_pulses. now rewrite length_map, length_seq. Qed.

Lemma cm_of_nonneg (d : Z) : (0 <= cm_of d)%Q.
Proof.
  unfold cm_of. destruct (Z.leb_spec d 0) as [Hd | Hd].
  - apply Qle_refl.
  - apply Qle_shift_div_l; [reflexivity |].
    rewrite Qmult_0_l. replace 0%Q with (inject_Z 0) by reflexivity.
    rewrite <- Zle_Qle. lia.
Qed.

Lemma cm_of_pos (d : Z) : 0 < d -> (0 < cm_of d)%Q.
Proof.
  intros Hd. unfold cm_of. destruct (Z.leb_spec d 0) as [H | _]; [lia |].
  apply Qlt_shift_div_l; [reflexivity |].
  rewrite Qmult_0_l. replace 0%Q with (inject_Z 0) by reflexivity.
  rewrite <- Zlt_Qlt. lia.
Qed.

Lemma cm_of_valid (d : Z) : Qltb 0 (cm_of d) = (0 <? d).
Proof.
  destruct (Z.ltb_spec 0 d) as [Hd | Hd].
  - apply Qltb_lt. now apply cm_of_pos.
  - apply Qltb_ge. unfold cm_of.
    destruct (Z.leb_spec d 0); [apply Qle_refl | lia].
Qed.

Section Standard.
Import ultrasonic.

Lemma measureOnceCm_run (s : State) :
  let d := echo_in (hw s) (n_pulse (hw s)) in
  measureOnceCm s =
  (cm_of d,
   with_hw s (mkHw (echo_in (hw s)) (S (n_pulse (hw s)))
                   (log (hw s) ++
                    shot_events (_trig s) (_echo s) (_maxUs s) d))).
Proof.
  destruct s as [t e m p f [ei n l]]. simpl.
  unfold measureOnceCm, bind, get, digitalWritePin, waitMicros, pulseIn,
    emit, hw_pulseIn, hw_emit, ret, with_hw, cm_of, shot_events. simpl.
  repeat rewrite <- app_assoc. simpl.
  destruct (ei n <=? 0); reflexivity.
Qed.

Lemma read_body_run (sum : number) (cnt : Z) (s : State) :
  let d := echo_in (hw s) (n_pulse (hw s)) in
  read_body (sum, cnt) s =
  ((if 0 <? d then ((sum + cm_of d)%Q, cnt + 1) else (sum, cnt)),
   with_hw s (mkHw (echo_in (hw s)) (S (n_pulse (hw s)))
                   (log (hw s) ++
                    shot_events (_trig s) (_echo s) (_maxUs s) d ++
                    [Pause 10]))).
Proof.
  intros d. unfold read_body, bind. rewrite measureOnceCm_run. fold d.
  rewrite cm_of_valid. destruct s as [t e m p f [ei n l]].
  unfold pause, emit, hw_emit, ret, with_hw.
  destruct (0 <? d); simpl; rewrite <- app_assoc; reflexivity.
Qed.

(** The sampling loop on any locals: the sum and the count grow by the
    valid samples, in order. *)
Lemma read_loop_run (k : nat) :
  forall (i : Z) (sum : number) (cnt : Z) (s : State),
  let v := valid (map cm_of (next_pulses (hw s) k)) in
  for_loop k i (fun _ => read_body) (sum, cnt) s =
  ((fold_left Qplus v sum, cnt + Z.of_nat (length v)),
   with_hw s (mkHw (echo_in (hw s)) (n_pulse (hw s) + k)
                   (log (hw s) ++
                    batch_events (_trig s) (_echo s) (_maxUs s)
                                 (next_pulses (hw s) k)))).
Proof.
  induction k as [| k IH]; intros i sum cnt s.
  - destruct s as [t e m p f [ei n l]]. simpl. unfold ret, with_hw. simpl.
    now rewrite Z.add_0_r, Nat.add_0_r, app_nil_r.
  - cbn zeta. rewrite next_pulses_S.
    change (for_loop (S k) i (fun _ => read_body) (sum, cnt) s)
      with (let (acc', s') := read_body (sum, cnt) s in
            for_loop k (i + 1) (fun _ => read_body) acc' s').
    rewrite read_body_run.
    destruct s as [t e m p f [ei n l]]. cbn [hw echo_in n_pulse log].
    set (d := ei n).
    assert (Hacc : exists sum1 cnt1,
               (if 0 <? d then ((sum + cm_of d)%Q, cnt + 1) else (sum, cnt))
               = (sum1, cnt1) /\
               fold_left Qplus (valid (map cm_of (next_pulses (mkHw ei (S n) l) k))) sum1
               = fold_left Qplus (valid (map cm_of (d :: next_pulses (mkHw ei (S n) l) k))) sum /\
               cnt1 + Z.of_nat (length (valid (map cm_of (next_pulses (mkHw ei (S n) l) k))))
               = cnt + Z.of_nat (length (valid (map cm_of (d :: next_pulses (mkHw ei (S n) l) k))))).
    { unfold valid. cbn [map filter]. rewrite cm_of_valid.
      destruct (0 <? d); eexists; eexists; repeat split.
      cbn [length]. lia. }
    destruct Hacc as (sum1 & cnt1 & -> & Hs & Hc).
    rewrite IH. unfold with_hw. cbn [hw echo_in n_pulse log _trig _echo _maxUs
      _polling fibers].
    rewrite (next_pulses_log ei (S n) _ l).
    rewrite Hs, Hc. unfold batch_events. cbn [flat_map].
    repeat rewrite <- app_assoc. rewrite Nat.add_succ_r. reflexivity.
Qed.

(** [read] as a whole: which samples it takes, what it returns and what
    it leaves on the board. *)
Lemma read_run (unit : Unit) (samples : number) (s : State) :
  let k := Z.to_nat (Math.max 1 (Math.min 10 (ToInt32 samples))) in
  let cm := mean (valid (map cm_of (next_pulses (hw s) k))) in
  read unit samples s =
  (match unit with Inches => inches cm | Centimeters => cm end,
   with_hw s (mkHw (echo_in (hw s)) (n_pulse (hw s) + k)
                   (log (hw s) ++
                    batch_events (_trig s) (_echo s) (_maxUs s)
                                 (next_pulses (hw s) k)))).
Proof.
  intros k cm. unfold read, bind. fold k. rewrite read_loop_run.
  unfold cm, mean, Qsum, inches. rewrite Z.add_0_l.
  destruct unit; reflexivity.
Qed.
End Standard.

(** ** Sorting with the comparator [(a, b) => a - b] *)

Lemma ascending_le (a b : number) :
  Qle_bool (ascending a b) 0 = true <-> (a <= b)%Q.
Proof.
  unfold ascending. rewrite Qle_bool_iff. split; intros H; lra.
Qed.

Lemma insert_perm (x : number) (l : list number) :
  Permutation (x :: l) (Array.insert ascending x l).
Proof.
  induction l as [| y t IH]; simpl.
  - apply Permutation_refl.
  - destruct (Qle_bool (ascending x y) 0).
    + apply Permutation_refl.
    + eapply perm_trans; [apply perm_swap |]. now apply perm_skip.
Qed.

Lemma sort_perm (l : list number) : Permutation l (Array.sort ascending l).
Proof.
  induction l as [| x t IH]; simpl.
  - apply perm_nil.
  - eapply perm_trans; [apply perm_skip, IH | apply insert_perm].
Qed.

Lemma sort_length (l : list number) :
  length (Array.sort ascending l) = length l.
Proof. symmetry. apply Permutation_length, sort_perm. Qed.

Lemma insert_hd_rel (a x : number) (l : list number) :
  (a <= x)%Q -> HdRel Qle a l -> HdRel Qle a (Array.insert ascending x l).
Proof.
  intros Hax Hl. destruct l as [| y t]; simpl.
  - now constructor.
  - destruct (Qle_bool (ascending x y) 0); constructor; auto.
    now inversion Hl.
Qed.

Lemma insert_sorted (x : number) (l : list number) :
  Sorted Qle l -> Sorted Qle (Array.insert ascending x l).
Proof.
  induction 1 as [| y t Ht IH Hy]; simpl.
  - repeat constructor.
  - destruct (Qle_bool (ascending x y) 0) eqn:E.
    + apply ascending_le in E. repeat constructor; auto.
    + constructor; auto. apply insert_hd_rel; auto.
      apply Qlt_le_weak, Qnot_le_lt. intros Hle.
      apply ascending_le in Hle. congruence.
Qed.

Lemma sort_sorted (l : list number) : Sorted Qle (Array.sort ascending l).
Proof.
  induction l as [| x t IH]; simpl.
  - constructor.
  - now apply insert_sorted.
Qed.

Lemma shiftr_half (n : nat) :
  Z.to_nat (Z.shiftr (Z.of_nat n) 1) = (n / 2)%nat.
Proof.
  rewrite Z.shiftr_div_pow2 by lia.
  change (2 ^ 1) with (Z.of_nat 2). rewrite <- Nat2Z.inj_div.
  apply Nat2Z.id.
Qed.

(** ** The robust variant: the retry ladder and the sampling loop *)

Lemma leb_0_ltb (d : Z) : (d <=? 0) = negb (0 <? d).
Proof. destruct (Z.leb_spec d 0), (Z.ltb_spec 0 d); auto; lia. Qed.

Section Robust.
Import ultrasonic33.

Lemma measureOnceCmRobust_run (s : State) :
  let n := n_pulse (hw s) in
  let d1 := echo_in (hw s) n in
  let d2 := echo_in (hw s) (1 + n)%nat in
  let d3 := echo_in (hw s) (2 + n)%nat in
  let d4 := echo_in (hw s) (3 + n)%nat in
  measureOnceCmRobust s =
  (cm_of (kept d1 d2 d3 d4),
   with_hw33 s (mkHw (echo_in (hw s)) (attempts d1 d2 d3 + n)
                     (log (hw s) ++
                      ladder_events (_trig s) (_echo s) (_maxUs s)
                                    (_settleUs s) d1 d2 d3 d4))).
Proof.
  destruct s as [t e m u [ei n l]].
  unfold measureOnceCmRobust, bind, get, digitalWritePin, waitMicros,
    pulseIn, emit, hw_pulseIn, hw_emit, ret, with_hw33, cm_of, kept,
    attempts, ladder_events, trigger30, retrigger20.
  simpl. rewrite !leb_0_ltb.
  destruct (0 <? ei n) eqn:E1; simpl.
  { rewrite !leb_0_ltb, E1. simpl. rewrite !leb_0_ltb, E1. simpl.
    repeat rewrite <- app_assoc. reflexivity. }
  rewrite !leb_0_ltb.
  destruct (0 <? ei (S n)) eqn:E2; simpl.
  { rewrite !leb_0_ltb, E2. simpl.
    repeat rewrite <- app_assoc. reflexivity. }
  rewrite !leb_0_ltb.
  destruct (0 <? ei (S (S n))) eqn:E3; simpl.
  { rewrite !leb_0_ltb, E3. simpl.
    repeat rewrite <- app_assoc. reflexivity. }
  rewrite !leb_0_ltb.
  destruct (0 <? ei (S (S (S n)))); simpl;
    repeat rewrite <- app_assoc; reflexivity.
Qed.

Lemma kept_pos (d1 d2 d3 d4 : Z) :
  (0 <? kept d1 d2 d3 d4) = (0 <? d1) || (0 <? d2) || (0 <? d3) || (0 <? d4).
Proof.
  unfold kept.
  destruct (0 <? d1) eqn:E1; [now rewrite E1 |].
  destruct (0 <? d2) eqn:E2; [now rewrite E2 |].
  destruct (0 <? d3) eqn:E3; [now rewrite E3 |].
  reflexivity.
Qed.

Lemma distance_body_run (vals : list number) (s : State) :
  let n := n_pulse (hw s) in
  let d1 := echo_in (hw s) n in
  let d2 := echo_in (hw s) (1 + n)%nat in
  let d3 := echo_in (hw s) (2 + n)%nat in
  let d4 := echo_in (hw s) (3 + n)%nat in
  let d := kept d1 d2 d3 d4 in
  distance_body vals s =
  ((if 0 <? d then Array.push vals (cm_of d) else vals),
   with_hw33 s (mkHw (echo_in (hw s)) (attempts d1 d2 d3 + n)
                     (log (hw s) ++
                      ladder_events (_trig s) (_echo s) (_maxUs s)
                                    (_settleUs s) d1 d2 d3 d4 ++
                      [Pause 20]))).
Proof.
  intros n d1 d2 d3 d4 d. unfold distance_body, bind.
  rewrite measureOnceCmRobust_run. fold n d1 d2 d3 d4 d.
  rewrite cm_of_valid. destruct s as [t e m u [ei k l]].
  unfold pause, emit, hw_emit, ret, with_hw33. simpl.
  now rewrite <- app_assoc.
Qed.

Lemma distance_run (unit : Unit) (samples : number) (s : State) :
  let vals := fst (collect samples s) in
  distance unit samples s =
  (match vals, unit with
   | [], _ => 0%Q
   | _, Inches => inches (upper_middle vals)
   | _, Centimeters => upper_middle vals
   end,
   snd (collect samples s)).
Proof.
  unfold distance, bind, collect.
  destruct (for_loop (trip_count samples) 0 (fun _ => distance_body) [] s)
    as [vals s'].
  cbn [fst snd]. fold ascending.
  destruct vals as [| v vs]; [reflexivity |].
  change (length (v :: vs) =? 0)%nat with false. cbv iota.
  rewrite sort_length, shiftr_half. unfold upper_middle, inches, ret.
  destruct unit; reflexivity.
Qed.
End Robust.

(** ** Invariants of loops *)

Lemma for_loop_invariant {S A : Type} `{Board S} (P : A -> S -> Prop)
    (body : Z -> A -> M S A) :
  (forall i acc s, P acc s -> P (fst (body i acc s)) (snd (body i acc s))) ->
  forall n i acc s,
    P acc s ->
    P (fst (for_loop n i body acc s)) (snd (for_loop n i body acc s)).
Proof.
  intros Hbody n. induction n as [| n IH]; intros i acc s HP.
  - exact HP.
  - simpl. unfold bind. specialize (Hbody i acc s HP).
    destruct (body i acc s) as [acc' s']. now apply IH.
Qed.

Lemma pauses_app (ms : Z) (l l' : list Event) :
  pauses ms (l ++ l') = (pauses ms l + pauses ms l')%nat.
Proof. unfold pauses. now rewrite filter_app, length_app. Qed.

Lemma pauses_ladder (ms : Z) (trig echo : DigitalPin) (maxUs settleUs : Z)
    (d1 d2 d3 d4 : Z) :
  pauses ms (ladder_events trig echo maxUs settleUs d1 d2 d3 d4) = 0%nat.
Proof.
  unfold ladder_events.
  destruct (0 <? d1), (0 <? d2), (0 <? d3); reflexivity.
Qed.

Lemma pauses_batch (trig echo : DigitalPin) (maxUs : Z) (ds : list Z) :
  pauses 10 (batch_events trig echo maxUs ds) = length ds.
Proof.
  induction ds as [| d ds IH]; [reflexivity |].
  unfold batch_events in *. cbn [flat_map]. rewrite pauses_app, IH.
  reflexivity.
Qed.

(** * Properties of the drivers *)

(** ** Timing configuration *)

Lemma setMaxMicros_range (maxMicros : number) (s : ultrasonic.State) :
  3000 <= ultrasonic._maxUs (snd (ultrasonic.setMaxMicros maxMicros s)) <= 40000.
Proof. simpl. apply clamp_range. lia. Qed.

Lemma setTiming_range (maxMicros settleMicros : number)
    (r : ultrasonic33.State) :
  let r' := snd (ultrasonic33.setTiming maxMicros settleMicros r) in
  15000 <= ultrasonic33._maxUs r' <= 60000 /\
  100 <= ultrasonic33._settleUs r' <= 2000.
Proof. simpl. split; apply clamp_range; lia. Qed.

(** C7. Whatever number is passed to the timing configuration of either
    variant (out of range or not an integer), the stored [_maxUs] lies in
    [3000, 60000] afterwards and the stored [_settleUs] of the robust
    variant in [100, 2000]; the configuration calls are total. *)
Theorem timing_config_in_range :
  forall (maxMicros settleMicros : number)
         (s : ultrasonic.State) (r : ultrasonic33.State),
    3000 <= ultrasonic._maxUs (snd (ultrasonic.setMaxMicros maxMicros s))
         <= 60000 /\
    3000 <= ultrasonic33._maxUs
              (snd (ultrasonic33.setTiming maxMicros settleMicros r))
         <= 60000 /\
    100 <= ultrasonic33._settleUs
             (snd (ultrasonic33.setTiming maxMicros settleMicros r))
        <= 2000.
Proof.
  intros maxMicros settleMicros s r.
  pose proof (setMaxMicros_range maxMicros s).
  pose proof (setTiming_range maxMicros settleMicros r) as [? ?].
  lia.
Qed.

Example setMaxMicros_fraction :
  ultrasonic._maxUs
    (snd (ultrasonic.setMaxMicros (250005 # 10) (ultrasonic.init (hw0 (echo_const 0)))))
  = 25000.
Proof. reflexivity. Qed.

Example setTiming_out_of_range :
  let r := snd (ultrasonic33.setTiming (-5)%Q 1000000%Q
                  (ultrasonic33.init (hw0 (echo_const 0)))) in
  ultrasonic33._maxUs r = 15000 /\ ultrasonic33._settleUs r = 2000.
Proof. split; reflexivity. Qed.

(** ** Single shot *)

(** C5. A single shot turns the echo time [d] into [d / 58] centimetres
    when [d > 0] and into the sentinel 0 otherwise; the robust single
    shot does so with the reading its ladder keeps.  Both are total
    functions of the state. *)
Theorem single_shot_conversion :
  forall (s : ultrasonic.State) (r : ultrasonic33.State),
    (let d := echo_in (ultrasonic.hw s) (n_pulse (ultrasonic.hw s)) in
     fst (ultrasonic.measureOnceCm s) =
     if 0 <? d then (inject_Z d / 58)%Q else 0%Q) /\
    (let n := n_pulse (ultrasonic33.hw r) in
     let e := echo_in (ultrasonic33.hw r) in
     let d := kept (e n) (e (1 + n)%nat) (e (2 + n)%nat) (e (3 + n)%nat) in
     fst (ultrasonic33.measureOnceCmRobust r) =
     if 0 <? d then (inject_Z d / 58)%Q else 0%Q).
Proof.
  intros s r. split; cbv zeta.
  - rewrite measureOnceCm_run. cbn [fst]. unfold cm_of.
    now rewrite leb_0_ltb; destruct (0 <? _).
  - rewrite measureOnceCmRobust_run. cbn [fst]. unfold cm_of.
    now rewrite leb_0_ltb; destruct (0 <? _).
Qed.

Example single_shot_580 :
  (fst (ultrasonic.measureOnceCm (ultrasonic.init (hw0 (echo_const 580))))
   == 10)%Q /\
  (fst (ultrasonic33.measureOnceCmRobust
          (ultrasonic33.init (hw0 (echo_const 580)))) == 10)%Q.
Proof. split; reflexivity. Qed.

Example single_shot_timeout :
  fst (ultrasonic.measureOnceCm (ultrasonic.init (hw0 (echo_const 0)))) = 0%Q /\
  fst (ultrasonic.measureOnceCm (ultrasonic.init (hw0 (echo_const (-7))))) = 0%Q.
Proof. split; reflexivity. Qed.

Lemma attempts_le_4 (d1 d2 d3 : Z) : (attempts d1 d2 d3 <= 4)%nat.
Proof. unfold attempts. destruct (0 <? d1), (0 <? d2), (0 <? d3); lia. Qed.

Lemma polarities_ladder (trig echo : DigitalPin) (maxUs settleUs : Z)
    (d1 d2 d3 d4 : Z) :
  polarities (ladder_events trig echo maxUs settleUs d1 d2 d3 d4) =
  firstn (attempts d1 d2 d3) [High; Low; High; Low].
Proof.
  unfold ladder_events, attempts.
  destruct (0 <? d1), (0 <? d2), (0 <? d3); reflexivity.
Qed.

(** C6. One robust single shot makes at most four [pulseIn] calls, in the
    order HIGH, LOW, HIGH, LOW: the first after the 30 us trigger and the
    settle delay, the second only if the first gave no reading, the third
    and fourth after one re-trigger of 20 us only if both gave none; it
    returns 0 when all four give none, and nothing follows the fourth. *)
Theorem robust_ladder :
  forall r : ultrasonic33.State,
    let n := n_pulse (ultrasonic33.hw r) in
    let e := echo_in (ultrasonic33.hw r) in
    let d1 := e n in
    let d2 := e (1 + n)%nat in
    let d3 := e (2 + n)%nat in
    let d4 := e (3 + n)%nat in
    let t := ultrasonic33._trig r in
    let p := ultrasonic33._echo r in
    let m := ultrasonic33._maxUs r in
    let u := ultrasonic33._settleUs r in
    let out := ultrasonic33.measureOnceCmRobust r in
    let calls :=
      [DigitalWrite t 0; WaitMicros 4; DigitalWrite t 1; WaitMicros 30;
       DigitalWrite t 0; WaitMicros u; PulseIn p High m d1] ++
      (if 0 <? d1 then [] else
       [PulseIn p Low m d2] ++
       (if 0 <? d2 then [] else
        [WaitMicros 200; DigitalWrite t 1; WaitMicros 20; DigitalWrite t 0;
         WaitMicros u; PulseIn p High m d3] ++
        (if 0 <? d3 then [] else [PulseIn p Low m d4]))) in
    log (ultrasonic33.hw (snd out)) = log (ultrasonic33.hw r) ++ calls /\
    polarities calls = firstn (attempts d1 d2 d3) [High; Low; High; Low] /\
    n_pulse (ultrasonic33.hw (snd out)) = (attempts d1 d2 d3 + n)%nat /\
    (attempts d1 d2 d3 <= 4)%nat /\
    fst out =
      (if (0 <? d1) || (0 <? d2) || (0 <? d3) || (0 <? d4)
       then (inject_Z (kept d1 d2 d3 d4) / 58)%Q else 0%Q).
Proof.
  intros r n e d1 d2 d3 d4 t p m u out calls.
  assert (Hcalls : calls = ladder_events t p m u d1 d2 d3 d4).
  { unfold calls, ladder_events, trigger30, retrigger20.
    destruct (0 <? d1), (0 <? d2), (0 <? d3); reflexivity. }
  subst out. rewrite measureOnceCmRobust_run.
  fold n e d1 d2 d3 d4 t p m u. cbn [fst snd]. unfold with_hw33.
  cbn [ultrasonic33.hw log n_pulse]. rewrite Hcalls.
  repeat split.
  - apply polarities_ladder.
  - apply attempts_le_4.
  - unfold cm_of. rewrite leb_0_ltb, kept_pos.
    now destruct ((0 <? d1) || (0 <? d2) || (0 <? d3) || (0 <? d4)).
Qed.

Example robust_ladder_all_fail :
  let out := ultrasonic33.measureOnceCmRobust
               (ultrasonic33.init (hw0 (echo_const 0))) in
  fst out = 0%Q /\
  n_pulse (ultrasonic33.hw (snd out)) = 4%nat /\
  log (ultrasonic33.hw (snd out)) =
    [DigitalWrite P1 0; WaitMicros 4; DigitalWrite P1 1; WaitMicros 30;
     DigitalWrite P1 0; WaitMicros 600; PulseIn P2 High 40000 0;
     PulseIn P2 Low 40000 0;
     WaitMicros 200; DigitalWrite P1 1; WaitMicros 20; DigitalWrite P1 0;
     WaitMicros 600; PulseIn P2 High 40000 0; PulseIn P2 Low 40000 0].
Proof. repeat split. Qed.

(** ** Aggregation: which samples count *)

Lemma valid_all_pos (l : list number) : Forall (Qlt 0) (valid l).
Proof.
  apply Forall_forall. intros x Hx. apply filter_In in Hx.
  now apply Qltb_lt.
Qed.

Lemma fold_Qplus_nonneg (l : list number) :
  forall a : number, (0 <= a)%Q -> Forall (Qlt 0) l ->
  (0 <= fold_left Qplus l a)%Q.
Proof.
  induction l as [| x t IH]; intros a Ha Hl; simpl; [exact Ha |].
  inversion Hl; subst. apply IH; auto.
  apply Qlt_le_weak. apply Qlt_le_trans with (0 + x)%Q.
  - now rewrite Qplus_0_l.
  - apply Qplus_le_l. exact Ha.
Qed.

Lemma mean_nonneg (l : list number) : Forall (Qlt 0) l -> (0 <= mean l)%Q.
Proof.
  intros Hl. unfold mean. destruct (Z.ltb_spec 0 (Z.of_nat (length l))) as [Hc | Hc].
  - apply Qle_shift_div_l.
    + replace 0%Q with (inject_Z 0) by reflexivity. now rewrite <- Zlt_Qlt.
    + rewrite Qmult_0_l. apply fold_Qplus_nonneg; [apply Qle_refl | exact Hl].
  - apply Qle_refl.
Qed.

Lemma inches_nonneg (x : number) : (0 <= x)%Q -> (0 <= inches x)%Q.
Proof.
  intros Hx. unfold inches. apply Qle_shift_div_l; [reflexivity |].
  now rewrite Qmult_0_l.
Qed.

Lemma inches_0 : (inches 0 == 0)%Q.
Proof. reflexivity. Qed.

Lemma valid_timeouts (ds : list Z) :
  Forall (fun d => d <= 0) ds -> valid (map cm_of ds) = [].
Proof.
  induction 1 as [| d ds Hd _ IH]; [reflexivity |].
  unfold valid in *. cbn [map filter]. rewrite cm_of_valid.
  destruct (Z.ltb_spec 0 d); [lia | exact IH].
Qed.

Lemma next_pulses_timeouts (h : Hw) (k : nat) :
  (forall j, (n_pulse h <= j)%nat -> echo_in h j <= 0) ->
  Forall (fun d => d <= 0) (next_pulses h k).
Proof.
  intros Hall. unfold next_pulses. apply Forall_forall. intros d Hd.
  apply in_map_iff in Hd as (j & <- & _). apply Hall. lia.
Qed.

Section RobustLoop.
Import ultrasonic33.

Lemma collect_all_pos (samples : number) (r : State) :
  Forall (Qlt 0) (fst (collect samples r)).
Proof.
  unfold collect.
  apply (for_loop_invariant (fun vals _ => Forall (Qlt 0) vals));
    [| constructor].
  intros _ vals s Hvals. rewrite distance_body_run. cbn [fst].
  cbv zeta.
  match goal with
  | |- context [0 <? ?d] => destruct (Z.ltb_spec 0 d) as [Hd | Hd]
  end; [| exact Hvals].
  unfold Array.push. apply Forall_app. split; [exact Hvals |].
  constructor; [| constructor]. now apply cm_of_pos.
Qed.

Lemma kept_timeouts (d1 d2 d3 d4 : Z) :
  d1 <= 0 -> d2 <= 0 -> d3 <= 0 -> d4 <= 0 -> (0 <? kept d1 d2 d3 d4) = false.
Proof.
  intros H1 H2 H3 H4. rewrite kept_pos.
  destruct (Z.ltb_spec 0 d1), (Z.ltb_spec 0 d2), (Z.ltb_spec 0 d3),
    (Z.ltb_spec 0 d4); try lia; reflexivity.
Qed.

Lemma collect_timeouts (samples : number) (r : State) :
  (forall j, (n_pulse (hw r) <= j)%nat -> echo_in (hw r) j <= 0) ->
  fst (collect samples r) = [].
Proof.
  intros Hall. unfold collect.
  apply (for_loop_invariant
           (fun vals s =>
              vals = [] /\
              forall j, (n_pulse (hw s) <= j)%nat -> echo_in (hw s) j <= 0)
           (fun _ => distance_body));
    [| split; [reflexivity | exact Hall]].
  intros _ vals s [-> Hs]. rewrite distance_body_run. cbn [fst snd].
  cbv zeta. rewrite kept_timeouts by (apply Hs; lia).
  split; [reflexivity |].
  unfold with_hw33. cbn [hw echo_in n_pulse]. intros j Hj. apply Hs. lia.
Qed.

Lemma upper_middle_index (vals : list number) :
  vals <> [] -> (length vals / 2 < length vals)%nat.
Proof.
  intros Hne. destruct vals as [| v vs]; [congruence |].
  apply Nat.div_lt; cbn [length]; lia.
Qed.

Lemma upper_middle_In (vals : list number) :
  vals <> [] -> In (upper_middle vals) vals.
Proof.
  intros Hne. unfold upper_middle.
  eapply Permutation_in; [apply Permutation_sym, sort_perm |].
  apply nth_In. rewrite sort_length. now apply upper_middle_index.
Qed.

(** Every turn of the robust loop ends in one pause of 20 ms. *)
Lemma collect_loop_pauses (k : nat) :
  forall (i : Z) (vals : list number) (s : State),
    pauses 20 (log (hw (snd (for_loop k i (fun _ => distance_body) vals s))))
    = (pauses 20 (log (hw s)) + k)%nat.
Proof.
  induction k as [| k IH]; intros i vals s.
  - simpl. lia.
  - cbn [for_loop]. unfold bind. rewrite distance_body_run.
    cbv beta iota zeta. rewrite IH. unfold with_hw33. cbn [hw log].
    rewrite !pauses_app, pauses_ladder. cbn. lia.
Qed.
End RobustLoop.

(** C3. [read] returns the arithmetic mean of the single-shot results of
    the batch that are strictly positive; failed shots enter neither the
    sum nor the divisor.  Echo times 580, 0, 1160 us, that is the samples
    10, 0, 20, give 15 and not 10. *)
Theorem read_mean_of_valid_samples :
  forall (samples : number) (s : ultrasonic.State),
    let k := Z.to_nat (Math.max 1 (Math.min 10 (ToInt32 samples))) in
    let batch := map cm_of (next_pulses (ultrasonic.hw s) k) in
    let kept_samples := filter (Qltb 0) batch in
    Forall (Qlt 0) kept_samples /\
    fst (ultrasonic.read ultrasonic.Centimeters samples s) =
      (if 0 <? Z.of_nat (length kept_samples)
       then (fold_left Qplus kept_samples 0 /
             inject_Z (Z.of_nat (length kept_samples)))%Q
       else 0%Q) /\
    let r := fst (ultrasonic.read ultrasonic.Centimeters 3%Q
                    (ultrasonic.init (hw0 (echo_list [580; 0; 1160])))) in
    (r == 15)%Q /\ ~ (r == 10)%Q.
Proof.
  intros samples s k batch kept_samples. split; [apply valid_all_pos |].
  split.
  - rewrite read_run. reflexivity.
  - cbv zeta. split.
    + vm_compute. reflexivity.
    + intros H. vm_compute in H. discriminate H.
Qed.

(** C4. When every pulse measurement of an aggregate call times out
    (duration at most 0), the call returns 0, in either unit and for
    either variant. *)
Theorem all_timeouts_give_zero :
  forall (unit : ultrasonic.Unit) (unit33 : ultrasonic33.Unit)
         (samples samples33 : number)
         (s : ultrasonic.State) (r : ultrasonic33.State),
    (forall j, (n_pulse (ultrasonic.hw s) <= j)%nat ->
               echo_in (ultrasonic.hw s) j <= 0) ->
    (forall j, (n_pulse (ultrasonic33.hw r) <= j)%nat ->
               echo_in (ultrasonic33.hw r) j <= 0) ->
    (fst (ultrasonic.read unit samples s) == 0)%Q /\
    fst (ultrasonic33.distance unit33 samples33 r) = 0%Q.
Proof.
  intros unit unit33 samples samples33 s r Hs Hr. split.
  - rewrite read_run. cbn [fst].
    rewrite valid_timeouts by now apply next_pulses_timeouts.
    destruct unit; reflexivity.
  - rewrite distance_run. cbn [fst]. now rewrite collect_timeouts.
Qed.

(** Boards on which every echo times out: answers 0, -1, 0 for [read]
    in inches, and -3 throughout for [distance] in inches. *)
Lemma all_timeouts_give_zero_witness :
  (fst (ultrasonic.read ultrasonic.Inches 3%Q
          (ultrasonic.init (hw0 (echo_list [0; -1; 0]%Z))))
   == 0)%Q /\
  fst (ultrasonic33.distance ultrasonic33.Inches 2%Q
         (ultrasonic33.init (hw0 (echo_const (-3))))) = 0%Q.
Proof.
  apply (all_timeouts_give_zero ultrasonic.Inches ultrasonic33.Inches).
  - intros j _. unfold echo_list. cbn [ultrasonic.hw ultrasonic.init hw0 echo_in].
    destruct j as [| [| [| [| j]]]]; simpl; lia.
  - intros j _. unfold echo_const. simpl. lia.
Defined.

(** C10. Whatever durations [pulseIn] answers (negative ones included),
    and for every unit and sample count, [read] and [distance] return a
    value that is not negative. *)
Theorem aggregate_nonneg :
  forall (unit : ultrasonic.Unit) (unit33 : ultrasonic33.Unit)
         (samples samples33 : number)
         (s : ultrasonic.State) (r : ultrasonic33.State),
    (0 <= fst (ultrasonic.read unit samples s))%Q /\
    (0 <= fst (ultrasonic33.distance unit33 samples33 r))%Q.
Proof.
  intros unit unit33 samples samples33 s r. split.
  - rewrite read_run. cbn [fst].
    pose proof (mean_nonneg _ (valid_all_pos
      (map cm_of (next_pulses (ultrasonic.hw s)
         (Z.to_nat (Math.max 1 (Math.min 10 (ToInt32 samples)))))))) as Hm.
    destruct unit; [exact Hm | now apply inches_nonneg].
  - rewrite distance_run. cbn [fst].
    pose proof (collect_all_pos samples33 r) as Hpos.
    destruct (fst (collect samples33 r)) as [| v vs] eqn:E;
      [apply Qle_refl |].
    assert (0 < upper_middle (v :: vs))%Q as Hm.
    { eapply Forall_forall; [exact Hpos |].
      apply upper_middle_In. discriminate. }
    destruct unit33; [now apply Qlt_le_weak |].
    apply inches_nonneg. now apply Qlt_le_weak.
Qed.

Example aggregate_nonneg_negative_echo :
  fst (ultrasonic.read ultrasonic.Centimeters 2%Q
         (ultrasonic.init (hw0 (echo_list [-580; 580])))) = (580 # 58)%Q.
Proof. vm_compute. reflexivity. Qed.

(** ** How many single shots an aggregate call takes *)

(** [read] takes as many shots as the clamped count says. *)
Lemma read_shots (unit : ultrasonic.Unit) (samples : number)
    (s : ultrasonic.State) :
  let s' := snd (ultrasonic.read unit samples s) in
  let k := Z.to_nat (Math.max 1 (Math.min 10 (ToInt32 samples))) in
  pauses 10 (log (ultrasonic.hw s')) = (pauses 10 (log (ultrasonic.hw s)) + k)%nat /\
  n_pulse (ultrasonic.hw s') = (n_pulse (ultrasonic.hw s) + k)%nat.
Proof.
  cbv zeta. rewrite read_run. cbn [snd]. unfold with_hw.
  cbn [ultrasonic.hw log n_pulse].
  now rewrite pauses_app, pauses_batch, next_pulses_length.
Qed.

(** For an integer count in the 32-bit range, that is the count clamped
    to [1, 10]. *)
Lemma read_shots_integer (unit : ultrasonic.Unit) (z : Z)
    (s : ultrasonic.State) :
  - 2 ^ 31 <= z < 2 ^ 31 ->
  n_pulse (ultrasonic.hw (snd (ultrasonic.read unit (inject_Z z) s))) =
  (n_pulse (ultrasonic.hw s) + Z.to_nat (Z.max 1 (Z.min 10 z)))%nat.
Proof.
  intros Hz. destruct (read_shots unit (inject_Z z) s) as [_ ->].
  now rewrite ToInt32_inject_Z.
Qed.

Lemma read_0_as_1 (unit : ultrasonic.Unit) (s : ultrasonic.State) :
  ultrasonic.read unit 0%Q s = ultrasonic.read unit 1%Q s.
Proof. reflexivity. Qed.

Lemma read_15_as_10 (unit : ultrasonic.Unit) (s : ultrasonic.State) :
  ultrasonic.read unit 15%Q s = ultrasonic.read unit 10%Q s.
Proof. reflexivity. Qed.

(** Beyond the 32-bit range [samples | 0] wraps before the clamp. *)
Example read_wraps_large_count :
  n_pulse (ultrasonic.hw
             (snd (ultrasonic.read ultrasonic.Centimeters 4294967301%Q
                     (ultrasonic.init (hw0 (echo_const 580)))))) = 5%nat.
Proof. vm_compute. reflexivity. Qed.

(** [distance] takes one shot for every [i = 0, 1, ...] below [samples]:
    the count is used as passed. *)
Lemma distance_shots (unit : ultrasonic33.Unit) (samples : number)
    (r : ultrasonic33.State) :
  pauses 20 (log (ultrasonic33.hw (snd (ultrasonic33.distance unit samples r))))
  = (pauses 20 (log (ultrasonic33.hw r)) + trip_count samples)%nat.
Proof.
  rewrite distance_run. cbn [snd]. unfold collect.
  apply collect_loop_pauses.
Qed.

(** C1, on the code: the robust variant does not clamp the sample count.
    Asked for 15 samples it takes 15 single shots, not 9; asked for 0 it
    takes none, not 1, and returns 0. *)
Theorem distance_count_not_clamped :
  forall (unit : ultrasonic33.Unit) (r : ultrasonic33.State),
    pauses 20 (log (ultrasonic33.hw (snd (ultrasonic33.distance unit 15%Q r))))
    = (pauses 20 (log (ultrasonic33.hw r)) + 15)%nat /\
    pauses 20 (log (ultrasonic33.hw (snd (ultrasonic33.distance unit 0%Q r))))
    = pauses 20 (log (ultrasonic33.hw r)) /\
    ultrasonic33.distance unit 0%Q r = (0%Q, r).
Proof.
  intros unit r. split; [| split].
  - now rewrite distance_shots.
  - rewrite distance_shots. change (trip_count 0%Q) with 0%nat. lia.
  - reflexivity.
Qed.

Example distance_15_samples :
  let r := ultrasonic33.init (hw0 (echo_const 580)) in
  n_pulse (ultrasonic33.hw
             (snd (ultrasonic33.distance ultrasonic33.Centimeters 15%Q r)))
  = 15%nat /\
  n_pulse (ultrasonic33.hw
             (snd (ultrasonic33.distance ultrasonic33.Centimeters 9%Q r)))
  = 9%nat.
Proof. split; vm_compute; reflexivity. Qed.

(** ** The median of the robust variant *)

(** An ascending arrangement of a list is unique when the order is
    antisymmetric on its elements. *)
Lemma sorted_perm_eq {A : Type} (R : A -> A -> Prop) (l1 : list A) :
  forall l2 : list A,
    (forall x y, In x l1 -> In y l1 -> R x y -> R y x -> x = y) ->
    StronglySorted R l1 -> StronglySorted R l2 -> Permutation l1 l2 ->
    l1 = l2.
Proof.
  induction l1 as [| a t1 IH]; intros l2 Hanti H1 H2 Hp.
  - apply Permutation_nil in Hp. now subst.
  - destruct l2 as [| b t2].
    { apply Permutation_sym, Permutation_nil in Hp. discriminate. }
    assert (Hab : a = b).
    { inversion H1 as [| ? ? _ Ha]; subst.
      inversion H2 as [| ? ? _ Hb]; subst.
      assert (Hin_a : In a (b :: t2))
        by (eapply Permutation_in; [exact Hp | now left]).
      assert (Hin_b : In b (a :: t1))
        by (eapply Permutation_in;
            [apply Permutation_sym; exact Hp | now left]).
      destruct Hin_a as [-> | Hin_a]; [reflexivity |].
      destruct Hin_b as [-> | Hin_b]; [reflexivity |].
      apply Hanti; [now left | now right | |].
      - eapply Forall_forall in Ha; eauto.
      - eapply Forall_forall in Hb; eauto. }
    subst b. f_equal. apply IH.
    + intros x y Hx Hy. apply Hanti; now right.
    + now inversion H1.
    + now inversion H2.
    + eapply Permutation_cons_inv; eauto.
Qed.

Lemma Qle_transitive : Relations_1.Transitive Qle.
Proof. intros x y z. apply Qle_trans. Qed.

Lemma strongly_sorted_Qred (l : list number) :
  StronglySorted Qle l -> StronglySorted Qle (map Qred l).
Proof.
  induction 1 as [| a t Ht IH Ha]; simpl; constructor; auto.
  apply Forall_forall. intros y Hy. apply in_map_iff in Hy as (x & <- & Hx).
  rewrite !Qred_correct. eapply Forall_forall in Ha; eauto.
Qed.

(** Two ascending arrangements of the same samples hold equal numbers at
    every index. *)
Lemma ascending_unique (l1 l2 : list number) (k : nat) :
  Sorted Qle l1 -> Sorted Qle l2 -> Permutation l1 l2 ->
  (nth k l1 0 == nth k l2 0)%Q.
Proof.
  intros H1 H2 Hp.
  apply Sorted_StronglySorted in H1; [| exact Qle_transitive].
  apply Sorted_StronglySorted in H2; [| exact Qle_transitive].
  assert (E : map Qred l1 = map Qred l2).
  { apply (sorted_perm_eq Qle).
    - intros x y Hx Hy Hxy Hyx.
      apply in_map_iff in Hx as (x' & <- & _).
      apply in_map_iff in Hy as (y' & <- & _).
      rewrite !Qred_correct in Hxy, Hyx.
      apply Qred_complete. now apply Qle_antisym.
    - now apply strongly_sorted_Qred.
    - now apply strongly_sorted_Qred.
    - now apply Permutation_map. }
  apply Qred_eq_iff.
  transitivity (nth k (map Qred l1) (Qred 0)).
  - symmetry. apply map_nth.
  - rewrite E. apply map_nth.
Qed.

(** The value that [distance] returns does not depend on how the engine
    sorts: it sits at index [n / 2] of every ascending arrangement. *)
Lemma upper_middle_any_sort (vals l : list number) :
  Permutation vals l -> Sorted Qle l ->
  (nth (length vals / 2) l 0 == upper_middle vals)%Q.
Proof.
  intros Hp Hs. unfold upper_middle. apply ascending_unique; auto.
  - apply sort_sorted.
  - eapply perm_trans; [apply Permutation_sym; exact Hp | apply sort_perm].
Qed.

(** C2. The robust variant returns, in centimetres, the element at index
    floor(n / 2) of its valid samples sorted ascending: the upper of the
    two middle elements when n is even, not their average.  Samples
    12, 15, 9 give 12; samples 10, 20, 30, 40 give 30, not 25. *)
Theorem robust_median_upper_middle :
  forall (samples : number) (r : ultrasonic33.State),
    let vals := fst (collect samples r) in
    let sorted := Array.sort (fun a b => a - b)%Q vals in
    Forall (Qlt 0) vals /\
    Permutation vals sorted /\ Sorted Qle sorted /\
    fst (ultrasonic33.distance ultrasonic33.Centimeters samples r) =
      nth (length vals / 2) sorted 0%Q /\
    (vals = [] \/ (length vals / 2 < length vals)%nat) /\
    upper_middle [12; 15; 9]%Q = 12%Q /\
    upper_middle [10; 20; 30; 40]%Q = 30%Q /\
    (fst (ultrasonic33.distance ultrasonic33.Centimeters 3%Q
            (ultrasonic33.init (hw0 (echo_list [696; 870; 522]%Z))))
     == 12)%Q /\
    let d4 := fst (ultrasonic33.distance ultrasonic33.Centimeters 4%Q
                     (ultrasonic33.init
                        (hw0 (echo_list [580; 1160; 1740; 2320]%Z)))) in
    (d4 == 30)%Q /\ ~ (d4 == 25)%Q.
Proof.
  intros samples r vals sorted.
  split; [apply collect_all_pos |].
  split; [apply sort_perm |].
  split; [apply sort_sorted |].
  split.
  { rewrite distance_run. cbn [fst]. fold vals. unfold upper_middle, sorted.
    destruct vals; reflexivity. }
  split.
  { destruct vals as [| v vs] eqn:E; [now left | right].
    apply upper_middle_index. discriminate. }
  split; [reflexivity |].
  split; [reflexivity |].
  split; [vm_compute; reflexivity |].
  cbv zeta. split; [vm_compute; reflexivity |].
  intros H. vm_compute in H. discriminate H.
Qed.

(** ** Unit conversion and aggregation *)

Lemma fold_Qplus_compat (l : list number) :
  forall a b : number,
    (a == b)%Q -> (fold_left Qplus l a == fold_left Qplus l b)%Q.
Proof.
  induction l as [| x t IH]; intros a b Hab; simpl; [exact Hab |].
  apply IH. now rewrite Hab.
Qed.

Lemma fold_Qplus_inches (l : list number) :
  forall a : number,
    (fold_left Qplus (map inches l) (inches a) ==
     inches (fold_left Qplus l a))%Q.
Proof.
  induction l as [| x t IH]; intros a; simpl; [reflexivity |].
  rewrite <- IH. apply fold_Qplus_compat. unfold inches. field.
Qed.

(** Converting before or after taking the mean gives the same number. *)
Lemma mean_inches (l : list number) :
  (mean (map inches l) == inches (mean l))%Q.
Proof.
  unfold mean. rewrite length_map.
  destruct (Z.ltb_spec 0 (Z.of_nat (length l))) as [Hc | Hc]; [| reflexivity].
  unfold Qsum.
  rewrite (fold_Qplus_compat (map inches l) 0%Q (inches 0%Q)) by reflexivity.
  rewrite fold_Qplus_inches. unfold inches. field.
  intros H0. pose proof (proj1 (inject_Z_injective _ 0) H0). lia.
Qed.

Lemma inches_le (x y : number) : (inches x <= inches y)%Q <-> (x <= y)%Q.
Proof.
  unfold inches. split; intros H.
  - apply Qmult_le_r with (z := (/ (254 # 100))%Q); [reflexivity | exact H].
  - apply Qmult_le_r; [reflexivity | exact H].
Qed.

Lemma ascending_inches (x y : number) :
  Qle_bool (ascending (inches x) (inches y)) 0 =
  Qle_bool (ascending x y) 0.
Proof.
  apply eq_true_iff_eq. rewrite !ascending_le. apply inches_le.
Qed.

Lemma insert_map_inches (x : number) (l : list number) :
  Array.insert ascending (inches x) (map inches l) =
  map inches (Array.insert ascending x l).
Proof.
  induction l as [| y t IH]; simpl; [reflexivity |].
  rewrite ascending_inches. destruct (Qle_bool (ascending x y) 0); simpl.
  - reflexivity.
  - now rewrite IH.
Qed.

(** The comparator decides alike on converted samples, so sorting and
    converting commute. *)
Lemma sort_map_inches (l : list number) :
  Array.sort ascending (map inches l) = map inches (Array.sort ascending l).
Proof.
  unfold Array.sort.
  induction l as [| x t IH]; cbn [map fold_right]; [reflexivity |].
  rewrite IH. apply insert_map_inches.
Qed.

Lemma upper_middle_inches (l : list number) :
  (upper_middle (map inches l) == inches (upper_middle l))%Q.
Proof.
  unfold upper_middle. rewrite sort_map_inches, length_map.
  destruct l as [| v vs]; [reflexivity |].
  rewrite (nth_indep _ 0%Q (inches 0%Q)).
  - rewrite map_nth. reflexivity.
  - rewrite length_map, sort_length. apply upper_middle_index. discriminate.
Qed.

(** C9. The conversion to inches divides the aggregated centimetre value
    by 2.54, once, after the aggregation.  For the robust variant the same
    inches come out when every valid sample is converted first and the
    element at index floor(n / 2) is taken afterwards, in whichever
    ascending arrangement of the converted samples; so it is for every
    list of samples [l], sorted in whichever way.  For the standard
    variant the mean of the converted samples is the same number as the
    converted mean in exact arithmetic; it is the one aggregate whose
    value depends on rounding, and [mean_of_converted_samples_differs]
    shows the two apart in the arithmetic of the engine. *)
Theorem inches_applied_once_to_aggregate :
  forall (samples samples33 : number)
         (s : ultrasonic.State) (r : ultrasonic33.State)
         (ws_inches l l_sorted l_inches : list number),
    let ws := fst (collect samples33 r) in
    let per_sample := map (fun cm => cm / (254 # 100))%Q in
    Permutation (per_sample ws) ws_inches -> Sorted Qle ws_inches ->
    Permutation l l_sorted -> Sorted Qle l_sorted ->
    Permutation (per_sample l) l_inches -> Sorted Qle l_inches ->
    ultrasonic.read ultrasonic.Inches samples s =
      ((fst (ultrasonic.read ultrasonic.Centimeters samples s) / (254 # 100))%Q,
       snd (ultrasonic.read ultrasonic.Centimeters samples s)) /\
    (fst (ultrasonic33.distance ultrasonic33.Inches samples33 r) ==
     fst (ultrasonic33.distance ultrasonic33.Centimeters samples33 r)
     / (254 # 100))%Q /\
    snd (ultrasonic33.distance ultrasonic33.Inches samples33 r) =
    snd (ultrasonic33.distance ultrasonic33.Centimeters samples33 r) /\
    (fst (ultrasonic33.distance ultrasonic33.Inches samples33 r)
     == nth (length ws / 2) ws_inches 0)%Q /\
    (nth (length l / 2) l_sorted 0 / (254 # 100)
     == nth (length l / 2) l_inches 0)%Q /\
    (mean l / (254 # 100) == mean (per_sample l))%Q.
Proof.
  intros samples samples33 s r ws_inches l l_sorted l_inches ws per_sample
         Hp Hs Hpl Hsl Hpi Hsi.
  assert (Hps : forall l, per_sample l = map inches l) by reflexivity.
  assert (Hany : forall vals arranged,
             Permutation (per_sample vals) arranged -> Sorted Qle arranged ->
             (nth (length vals / 2) arranged 0 == inches (upper_middle vals))%Q).
  { intros vals arranged Hpa Hsa. rewrite Hps in Hpa.
    pose proof (upper_middle_any_sort _ _ Hpa Hsa) as Hm.
    rewrite length_map in Hm. now rewrite Hm, upper_middle_inches. }
  split; [now rewrite !read_run |].
  split.
  { rewrite !distance_run. cbn [fst]. fold ws.
    destruct ws; reflexivity. }
  split; [now rewrite !distance_run |].
  split; [| split].
  - rewrite (Hany ws ws_inches Hp Hs).
    rewrite distance_run. cbn [fst]. fold ws.
    destruct ws as [| w ws']; reflexivity.
  - rewrite (Hany l l_inches Hpi Hsi).
    rewrite (upper_middle_any_sort l l_sorted Hpl Hsl). reflexivity.
  - rewrite Hps. symmetry. apply mean_inches.
Qed.

(** Echo times 696, 870 and 522 us: the samples are 12, 15 and 9 cm, and
    the converted samples are listed smallest first. *)
Lemma inches_applied_once_to_aggregate_witness :
  let r := ultrasonic33.init (hw0 (echo_list [696; 870; 522]%Z)) in
  let per_sample := map (fun cm => cm / (254 # 100))%Q in
  let ws_inches := per_sample [522 # 58; 696 # 58; 870 # 58]%Q in
  let l := [12; 15; 9]%Q in
  let l_sorted := [9; 12; 15]%Q in
  let l_inches := per_sample l_sorted in
  Permutation (per_sample (fst (collect 3%Q r))) ws_inches /\
  Sorted Qle ws_inches /\
  Permutation l l_sorted /\ Sorted Qle l_sorted /\
  Permutation (per_sample l) l_inches /\ Sorted Qle l_inches /\
  (fst (ultrasonic33.distance ultrasonic33.Inches 3%Q r)
   == nth 1 ws_inches 0)%Q /\
  (12 / (254 # 100) == nth 1 l_inches 0)%Q.
Proof.
  intros r per_sample ws_inches l l_sorted l_inches.
  assert (Hp : Permutation (per_sample (fst (collect 3%Q r))) ws_inches).
  { vm_compute.
    eapply perm_trans; [apply perm_skip; apply perm_swap | apply perm_swap]. }
  assert (Hs : Sorted Qle ws_inches).
  { repeat constructor; vm_compute; discriminate. }
  assert (Hpl : Permutation l l_sorted).
  { eapply perm_trans; [apply perm_skip; apply perm_swap | apply perm_swap]. }
  assert (Hsl : Sorted Qle l_sorted).
  { repeat constructor; vm_compute; discriminate. }
  assert (Hpi : Permutation (per_sample l) l_inches).
  { vm_compute.
    eapply perm_trans; [apply perm_skip; apply perm_swap | apply perm_swap]. }
  assert (Hsi : Sorted Qle l_inches).
  { repeat constructor; vm_compute; discriminate. }
  pose proof (inches_applied_once_to_aggregate 1%Q 3%Q
                (ultrasonic.init (hw0 (echo_list [696]%Z))) r
                ws_inches l l_sorted l_inches Hp Hs Hpl Hsl Hpi Hsi) as H.
  destruct H as (_ & _ & _ & Hw & Hl & _).
  repeat (split; [assumption |]). exact Hl.
Defined.

(** C9 as worded fails for the mean of the standard variant.  With the
    echo times 100 and 101 us, [read] in inches returns the mean in
    centimetres divided by 2.54, which is 0.68218843334238399; the mean of
    the two samples converted one by one is 0.68218843334238388. *)
Lemma mean_of_converted_samples_differs :
  let s := ultrasonic.init (hw0 (echo_list [100; 101]%Z)) in
  let vs := [cm64 100; cm64 101] in
  let once := fst (binary64.read ultrasonic.Inches 2%Q s) in
  let per_sample :=
    mean64 (map (fun cm => PrimFloat.div cm binary64.c2_54) vs) in
  fst (binary64.read ultrasonic.Centimeters 2%Q s) = mean64 vs /\
  once = PrimFloat.div (mean64 vs) binary64.c2_54 /\
  PrimFloat.eqb once per_sample = false /\
  PrimFloat.ltb per_sample once = true.
Proof.
  intros s vs once per_sample.
  split; [| split; [| split]]; vm_compute; reflexivity.
Qed.

(** [binary64.c2_54] is the correctly rounded quotient of 254 by 100,
    the number that the literal [2.54] denotes.  On samples whose sums
    are exact the two arithmetics agree: echo times 580, 0 and 1160 us
    read 15 cm in both, and leave the same board. *)
Example binary64_read_agrees_when_exact :
  let h := hw0 (echo_list [580; 0; 1160]%Z) in
  PrimFloat.eqb
    (PrimFloat.div (binary64.of_int 254) (binary64.of_int 100))
    binary64.c2_54 = true /\
  fst (binary64.read ultrasonic.Centimeters 3%Q (ultrasonic.init h))
  = binary64.of_int 15 /\
  (fst (ultrasonic.read ultrasonic.Centimeters 3%Q (ultrasonic.init h))
   == 15)%Q /\
  snd (binary64.read ultrasonic.Centimeters 3%Q (ultrasonic.init h))
  = snd (ultrasonic.read ultrasonic.Centimeters 3%Q (ultrasonic.init h)).
Proof.
  intros h.
  split; [| split; [| split]]; vm_compute; reflexivity.
Qed.

(** ** The threshold watcher *)

Lemma events_since_app (l new : list Event) : events_since l (l ++ new) = new.
Proof.
  unfold events_since. induction l as [| e l IH]; [reflexivity | exact IH].
Qed.

Lemma handler_runs_app (l l' : list Event) :
  handler_runs (l ++ l') = handler_runs l ++ handler_runs l'.
Proof. unfold handler_runs. apply flat_map_app. Qed.

Lemma handler_runs_shot (trig echo : DigitalPin) (maxUs d : Z) :
  handler_runs (shot_events trig echo maxUs d) = [].
Proof. reflexivity. Qed.

Section Watcher.
Import ultrasonic.

Lemma distanceCm_run (s : State) :
  let d := echo_in (hw s) (n_pulse (hw s)) in
  distanceCm s =
  (mean (valid [cm_of d]),
   with_hw s (mkHw (echo_in (hw s)) (n_pulse (hw s) + 1)
                   (log (hw s) ++
                    shot_events (_trig s) (_echo s) (_maxUs s) d ++
                    [Pause 10]))).
Proof.
  intros d. unfold distanceCm. rewrite read_run.
  change (Z.to_nat (Math.max 1 (Math.min 10 (ToInt32 1%Q)))) with 1%nat.
  unfold next_pulses, batch_events. cbn [seq map flat_map].
  rewrite Nat.add_0_r, app_nil_r. reflexivity.
Qed.

Lemma poll_run (f : Fiber) (s : State) :
  let d := echo_in (hw s) (n_pulse (hw s)) in
  let cm := fst (distanceCm s) in
  poll f s =
  (tt,
   with_hw s (mkHw (echo_in (hw s)) (n_pulse (hw s) + 1)
                   (log (hw s) ++
                    shot_events (_trig s) (_echo s) (_maxUs s) d ++
                    [Pause 10] ++
                    (if Qltb 0 cm && Qltb cm (inject_Z (f_threshold f))
                     then [RunHandler (f_handler f) cm] else []) ++
                    [Pause 50]))).
Proof.
  intros d cm. unfold poll, bind. subst cm. rewrite distanceCm_run.
  fold d. cbn [fst]. destruct s as [t e m p fs [ei n l]].
  unfold pause, emit, hw_emit, ret, with_hw.
  destruct (Qltb 0 (mean (valid [cm_of d])) &&
            Qltb (mean (valid [cm_of d])) (inject_Z (f_threshold f)));
    simpl; repeat rewrite <- app_assoc; reflexivity.
Qed.

(** The handler entries of one turn of a watcher's loop. *)
Lemma poll_handler_runs (f : Fiber) (s : State) :
  let cm := fst (distanceCm s) in
  handler_runs (events_since (log (hw s)) (log (hw (snd (poll f s))))) =
  if Qltb 0 cm && Qltb cm (inject_Z (f_threshold f))
  then [(f_handler f, cm)] else [].
Proof.
  intros cm. rewrite poll_run. fold cm. cbn [snd]. unfold with_hw.
  cbn [hw log]. rewrite events_since_app, !handler_runs_app.
  rewrite handler_runs_shot.
  destruct (Qltb 0 cm && Qltb cm (inject_Z (f_threshold f))); reflexivity.
Qed.

Lemma onDistanceLessThan_run (threshold : number) (handler : nat)
    (s : State) :
  let f := mkFiber (Math.max 2 (Math.min 400 (ToInt32 threshold))) handler in
  onDistanceLessThan threshold handler s =
  (tt, mkState (_trig s) (_echo s) (_maxUs s) true (fibers s ++ [f]) (hw s)).
Proof.
  destruct s as [t e m p fs h].
  unfold onDistanceLessThan, bind, get, inBackground, set_polling.
  destruct p; reflexivity.
Qed.
End Watcher.

(** C8, as the code has it.  A watcher registered with [threshold] keeps
    the threshold coerced to a 32-bit integer ([threshold | 0]) and then
    clamped to [2, 400].  On every turn of its loop the handler is entered,
    once and with the measured distance [cm], exactly when [cm > 0] and
    [cm] is strictly below that stored threshold; it is not entered on a
    failed reading ([cm = 0]) nor when [cm] reaches the stored threshold. *)
Theorem watcher_fires_below_stored_threshold :
  forall (threshold : number) (handler : nat) (s0 s : ultrasonic.State),
    let stored := Math.max 2 (Math.min 400 (ToInt32 threshold)) in
    let f := ultrasonic.mkFiber stored handler in
    let cm := fst (ultrasonic.distanceCm s) in
    let runs :=
      handler_runs (events_since (log (ultrasonic.hw s))
                      (log (ultrasonic.hw (snd (ultrasonic.poll f s))))) in
    ultrasonic.fibers
      (snd (ultrasonic.onDistanceLessThan threshold handler s0))
    = ultrasonic.fibers s0 ++ [f] /\
    2 <= stored <= 400 /\
    (runs = [(handler, cm)] <-> (0 < cm /\ cm < inject_Z stored)%Q) /\
    (runs = [] <-> ~ (0 < cm /\ cm < inject_Z stored)%Q).
Proof.
  intros threshold handler s0 s stored f cm runs.
  split; [now rewrite onDistanceLessThan_run |].
  split; [apply clamp_range; lia |].
  assert (Hruns : runs = if Qltb 0 cm && Qltb cm (inject_Z stored)
                         then [(handler, cm)] else [])
    by apply poll_handler_runs.
  assert (Hcond : Qltb 0 cm && Qltb cm (inject_Z stored) = true <->
                  (0 < cm /\ cm < inject_Z stored)%Q)
    by (rewrite andb_true_iff, !Qltb_lt; reflexivity).
  rewrite Hruns.
  destruct (Qltb 0 cm && Qltb cm (inject_Z stored)).
  - assert (Hc : (0 < cm /\ cm < inject_Z stored)%Q) by now apply Hcond.
    split; split; intros H; auto; [discriminate | contradiction].
  - assert (Hn : ~ (0 < cm /\ cm < inject_Z stored)%Q).
    { intros H. apply Hcond in H. discriminate. }
    split; split; intros H; auto; [discriminate | contradiction].
Qed.

(** For an integer threshold of the 32-bit range the stored threshold is
    the threshold clamped to [2, 400]. *)
Lemma stored_threshold_integer (z : Z) :
  - 2 ^ 31 <= z < 2 ^ 31 ->
  inject_Z (Math.max 2 (Math.min 400 (ToInt32 (inject_Z z)))) =
  clamp_number 2%Q 400%Q (inject_Z z).
Proof.
  intros Hz. rewrite ToInt32_inject_Z by exact Hz. unfold clamp_number.
  destruct (Qltb (inject_Z z) 2%Q) eqn:E1.
  - apply Qltb_lt in E1. change 2%Q with (inject_Z 2) in E1.
    rewrite <- Zlt_Qlt in E1. rewrite clamp_below by lia. reflexivity.
  - apply Qltb_ge in E1. change 2%Q with (inject_Z 2) in E1.
    rewrite <- Zle_Qle in E1.
    destruct (Qltb 400%Q (inject_Z z)) eqn:E2.
    + apply Qltb_lt in E2. change 400%Q with (inject_Z 400) in E2.
      rewrite <- Zlt_Qlt in E2. rewrite clamp_above by lia. reflexivity.
    + apply Qltb_ge in E2. change 400%Q with (inject_Z 400) in E2.
      rewrite <- Zle_Qle in E2. rewrite clamp_id by lia. reflexivity.
Qed.

(** C8 as worded fails for a threshold that is not an integer: with
    threshold 10.7 and an echo of 600 us the distance 600 / 58 = 10.34...
    is positive and below the threshold clamped to [2, 400], which is 10.7,
    yet the handler is not entered, since the stored threshold is 10. *)
Lemma watcher_fractional_threshold :
  let threshold := (107 # 10)%Q in
  let s := snd (ultrasonic.onDistanceLessThan threshold 0
                  (ultrasonic.init (hw0 (echo_const 600)))) in
  let f := ultrasonic.mkFiber 10 0 in
  let cm := fst (ultrasonic.distanceCm s) in
  ultrasonic.fibers s = [f] /\
  (0 < cm /\ cm < clamp_number 2 400 threshold)%Q /\
  handler_runs (events_since (log (ultrasonic.hw s))
                  (log (ultrasonic.hw (snd (ultrasonic.poll f s))))) = [].
Proof.
  cbv zeta. split; [reflexivity |]. split; [split |].
  - vm_compute. reflexivity.
  - vm_compute. reflexivity.
  - vm_compute. reflexivity.
Qed.

Lemma Forall_handler_runs_app (P : nat * number -> Prop) (l l' : list Event) :
  Forall P (handler_runs l) -> Forall P (handler_runs l') ->
  Forall P (handler_runs (l ++ l')).
Proof.
  intros H H'. rewrite handler_runs_app. apply Forall_app. now split.
Qed.

(** Over any schedule of watcher turns the handler is never entered on a
    failed reading. *)
Lemma run_turns_positive (schedule : list ultrasonic.Fiber) :
  forall s : ultrasonic.State,
  exists new : list Event,
    log (ultrasonic.hw (snd (run_turns schedule s)))
    = log (ultrasonic.hw s) ++ new /\
    Forall (fun run => (0 < snd run)%Q) (handler_runs new).
Proof.
  induction schedule as [| f rest IH]; intros s.
  - exists []. simpl. now rewrite app_nil_r.
  - cbn [run_turns]. unfold bind. rewrite poll_run. cbv beta iota zeta.
    match goal with
    | |- context [run_turns rest ?s1] => destruct (IH s1) as (new & Hlog & Hpos)
    end.
    rewrite Hlog. unfold with_hw. cbn [ultrasonic.hw log].
    eexists. rewrite <- app_assoc. split; [reflexivity |].
    apply Forall_handler_runs_app; [| exact Hpos].
    apply Forall_handler_runs_app; [rewrite handler_runs_shot; constructor |].
    apply Forall_handler_runs_app; [constructor |].
    apply Forall_handler_runs_app; [| constructor].
    set (cm := fst (ultrasonic.distanceCm s)).
    destruct (Qltb 0 cm && Qltb cm (inject_Z (ultrasonic.f_threshold f)))
      eqn:E; [| constructor].
    apply andb_true_iff in E as [E _].
    constructor; [| constructor]. cbn [snd]. now apply Qltb_lt.
Qed.

(** ** Whole runs *)

Lemma handler_runs_batch (trig echo : DigitalPin) (maxUs : Z) (ds : list Z) :
  handler_runs (batch_events trig echo maxUs ds) = [].
Proof.
  induction ds as [| d ds IH]; [reflexivity |].
  unfold batch_events in *. cbn [flat_map].
  now rewrite !handler_runs_app, IH.
Qed.

Lemma setPins_run (trig echo : DigitalPin) (s : ultrasonic.State) :
  snd (ultrasonic.setPins trig echo s) =
  ultrasonic.mkState trig echo (ultrasonic._maxUs s) (ultrasonic._polling s)
    (ultrasonic.fibers s)
    (mkHw (echo_in (ultrasonic.hw s)) (n_pulse (ultrasonic.hw s))
          (log (ultrasonic.hw s) ++
           [SetPull echo PullNone; DigitalWrite trig 0; WaitMicros 5])).
Proof.
  destruct s as [t e m p fs [ei n l]]. cbn. unfold hw_emit. cbn.
  now rewrite <- !app_assoc.
Qed.

Lemma step_wellformed (s s' : ultrasonic.State) :
  step s s' -> wellformed s -> wellformed s'.
Proof.
  unfold wellformed. intros Hstep (Hmax & Hthr & Hruns).
  destruct Hstep as [trig echo s | maxMicros s | unit samples s | s
                    | threshold handler s | f s Hf].
  - rewrite setPins_run.
    cbn [ultrasonic._maxUs ultrasonic.fibers ultrasonic.hw log].
    refine (conj Hmax (conj Hthr _)).
    rewrite handler_runs_app. cbn. now rewrite app_nil_r.
  - refine (conj _ (conj Hthr Hruns)). apply setMaxMicros_range.
  - rewrite read_run. cbn [snd]. unfold with_hw.
    cbn [ultrasonic._maxUs ultrasonic.fibers ultrasonic.hw log].
    refine (conj Hmax (conj Hthr _)).
    now rewrite handler_runs_app, handler_runs_batch, app_nil_r.
  - rewrite distanceCm_run. cbn [snd]. unfold with_hw.
    cbn [ultrasonic._maxUs ultrasonic.fibers ultrasonic.hw log].
    refine (conj Hmax (conj Hthr _)).
    now rewrite !handler_runs_app, handler_runs_shot, app_nil_r.
  - rewrite onDistanceLessThan_run. cbn [snd].
    cbn [ultrasonic._maxUs ultrasonic.fibers ultrasonic.hw log].
    refine (conj Hmax (conj _ Hruns)).
    apply Forall_app. split; [exact Hthr |].
    constructor; [| constructor]. cbn. apply clamp_range. lia.
  - rewrite poll_run. cbn [snd]. unfold with_hw.
    cbn [ultrasonic._maxUs ultrasonic.fibers ultrasonic.hw log].
    refine (conj Hmax (conj Hthr _)).
    rewrite !handler_runs_app, handler_runs_shot. cbn [app].
    apply Forall_app. split; [exact Hruns |].
    change (handler_runs [Pause 10]) with (@nil (nat * number)).
    change (handler_runs [Pause 50]) with (@nil (nat * number)).
    rewrite app_nil_r. cbn [app].
    set (cm := fst (ultrasonic.distanceCm s)).
    destruct (Qltb 0 cm && Qltb cm (inject_Z (ultrasonic.f_threshold f)))
      eqn:E; [| constructor].
    apply andb_true_iff in E as [E1 E2].
    apply Qltb_lt in E1. apply Qltb_lt in E2.
    constructor; [| constructor]. cbn [snd]. split; [exact E1 |].
    eapply Qlt_le_trans; [exact E2 |].
    change 400%Q with (inject_Z 400). rewrite <- Zle_Qle.
    eapply Forall_forall in Hthr; [| exact Hf]. cbv beta in Hthr. lia.
Qed.

(** X16. Throughout a run of [ultrasonic] the stored values stay in range and
    no handler is entered on a failed reading. *)
Lemma reachable_wellformed (e : nat -> Z) (s : ultrasonic.State) :
  reachable e s -> wellformed s.
Proof.
  induction 1 as [| s s' _ IH Hstep].
  - unfold wellformed. cbn. repeat split; try lia; constructor.
  - eapply step_wellformed; eauto.
Qed.

Lemma collect_config (samples : number) (r : ultrasonic33.State) :
  ultrasonic33._maxUs (snd (collect samples r)) = ultrasonic33._maxUs r /\
  ultrasonic33._settleUs (snd (collect samples r)) = ultrasonic33._settleUs r.
Proof.
  unfold collect.
  apply (for_loop_invariant
           (fun _ s => ultrasonic33._maxUs s = ultrasonic33._maxUs r /\
                       ultrasonic33._settleUs s = ultrasonic33._settleUs r)
           (fun _ => ultrasonic33.distance_body)); [| now split].
  intros _ vals s Hs. now rewrite distance_body_run.
Qed.

(** X17. Throughout a run of [ultrasonic33] the stored timing stays in range. *)
Lemma reachable33_wellformed (e : nat -> Z) (r : ultrasonic33.State) :
  reachable33 e r -> wellformed33 r.
Proof.
  induction 1 as [| r r' _ IH Hstep].
  - unfold wellformed33. cbn. lia.
  - destruct Hstep as [trig echo r | maxMicros settleMicros r | unit samples r].
    + destruct r as [t p m u h]. exact IH.
    + apply setTiming_range.
    + unfold wellformed33 in *. rewrite distance_run. cbn [snd].
      destruct (collect_config samples r) as [-> ->]. exact IH.
Qed.

(** * Further properties *)

(** ** Coercion and clamping of arguments *)

Lemma truncate_nonneg (x : number) : (0 <= x)%Q -> truncate x = Qfloor x.
Proof.
  intros Hx. unfold truncate, Qfloor. destruct x as [a b]. cbn.
  unfold Qle in Hx. cbn in Hx. rewrite Z.mul_1_r in Hx.
  apply Z.quot_div_nonneg; lia.
Qed.

Lemma truncate_ge (x : number) (lo : Z) :
  (inject_Z lo <= x)%Q -> lo <= truncate x.
Proof.
  intros Hx. unfold truncate. destruct x as [a b]. unfold Qle in Hx.
  cbn [Qnum Qden inject_Z] in *. rewrite Z.mul_1_r in Hx.
  destruct (Z.le_gt_cases 0 a) as [Ha | Ha].
  - rewrite Z.quot_div_nonneg by lia. apply Z.div_le_lower_bound; lia.
  - pose proof (Z.quot_opp_l a (Z.pos b) ltac:(lia)) as Hq.
    assert (- a ÷ Z.pos b <= - lo).
    { rewrite Z.quot_div_nonneg by lia.
      apply Z.div_le_upper_bound; [lia |]. nia. }
    lia.
Qed.

Lemma truncate_le (x : number) (hi : Z) :
  (x <= inject_Z hi)%Q -> truncate x <= hi.
Proof.
  intros Hx. unfold truncate. destruct x as [a b]. unfold Qle in Hx.
  cbn [Qnum Qden inject_Z] in *. rewrite Z.mul_1_r in Hx.
  destruct (Z.le_gt_cases 0 a) as [Ha | Ha].
  - rewrite Z.quot_div_nonneg by lia.
    apply Z.div_le_upper_bound; [lia |]. nia.
  - pose proof (Z.quot_opp_l a (Z.pos b) ltac:(lia)) as Hq.
    assert (- hi <= - a ÷ Z.pos b).
    { rewrite Z.quot_div_nonneg by lia.
      apply Z.div_le_lower_bound; [lia |]. nia. }
    lia.
Qed.

Lemma truncate_lt (x : number) (hi : Z) :
  0 < hi -> (x < inject_Z hi)%Q -> truncate x < hi.
Proof.
  intros Hhi Hx. unfold truncate. destruct x as [a b]. unfold Qlt in Hx.
  cbn [Qnum Qden inject_Z] in *. rewrite Z.mul_1_r in Hx.
  destruct (Z.le_gt_cases 0 a) as [Ha | Ha].
  - rewrite Z.quot_div_nonneg by lia.
    apply Z.div_lt_upper_bound; lia.
  - pose proof (Z.quot_opp_l a (Z.pos b) ltac:(lia)) as Hq.
    assert (0 <= - a ÷ Z.pos b) by (apply Z.quot_pos; lia).
    lia.
Qed.

Lemma truncate_in_int32 (x : number) :
  in_int32 x -> - 2 ^ 31 <= truncate x < 2 ^ 31.
Proof.
  intros [Hlo Hhi]. split.
  - now apply truncate_ge.
  - apply truncate_lt; [lia | exact Hhi].
Qed.

(** On a number that does not wrap, the coercion and the clamp of a
    non-negative range saturate. *)
Lemma clamp_saturates (lo hi : Z) (x : number) :
  0 <= lo <= hi -> in_int32 x ->
  Math.max lo (Math.min hi (ToInt32 x)) = saturate lo hi x.
Proof.
  intros Hb Hx. unfold ToInt32.
  rewrite wrap32_id by now apply truncate_in_int32.
  unfold saturate.
  destruct (Qltb x (inject_Z lo)) eqn:E1.
  - apply Qltb_lt in E1. apply clamp_below; [lia |].
    apply truncate_le. now apply Qlt_le_weak.
  - apply Qltb_ge in E1.
    assert (0 <= x)%Q as Hx0.
    { eapply Qle_trans; [| exact E1]. change 0%Q with (inject_Z 0).
      rewrite <- Zle_Qle. lia. }
    rewrite truncate_nonneg by exact Hx0.
    destruct (Qltb (inject_Z hi) x) eqn:E2.
    + apply Qltb_lt in E2. apply clamp_above; [lia |].
      rewrite <- truncate_nonneg by exact Hx0.
      apply truncate_ge. now apply Qlt_le_weak.
    + apply Qltb_ge in E2. apply clamp_id. split.
      * rewrite <- (Qfloor_Z lo). now apply Qfloor_resp_le.
      * rewrite <- (Qfloor_Z hi). now apply Qfloor_resp_le.
Qed.

(** X1. Within the 32-bit range the timing configuration saturates: an
    argument inside the accepted interval is stored as its integer part,
    one outside as the nearest bound. *)
Theorem timing_config_saturates :
  forall (maxMicros settleMicros : number)
         (s : ultrasonic.State) (r : ultrasonic33.State),
    in_int32 maxMicros -> in_int32 settleMicros ->
    ultrasonic._maxUs (snd (ultrasonic.setMaxMicros maxMicros s))
    = saturate 3000 40000 maxMicros /\
    ultrasonic33._maxUs (snd (ultrasonic33.setTiming maxMicros settleMicros r))
    = saturate 15000 60000 maxMicros /\
    ultrasonic33._settleUs
      (snd (ultrasonic33.setTiming maxMicros settleMicros r))
    = saturate 100 2000 settleMicros.
Proof.
  intros maxMicros settleMicros s r Hm Hs. cbn.
  rewrite !clamp_saturates by (auto; lia). auto.
Qed.

Lemma timing_config_saturates_witness :
  ultrasonic._maxUs
    (snd (ultrasonic.setMaxMicros (250005 # 10)
            (ultrasonic.init (hw0 (echo_const 0)))))
  = saturate 3000 40000 (250005 # 10) /\
  ultrasonic33._maxUs
    (snd (ultrasonic33.setTiming (250005 # 10) (-7 # 2)
            (ultrasonic33.init (hw0 (echo_const 0)))))
  = saturate 15000 60000 (250005 # 10) /\
  ultrasonic33._settleUs
    (snd (ultrasonic33.setTiming (250005 # 10) (-7 # 2)
            (ultrasonic33.init (hw0 (echo_const 0)))))
  = saturate 100 2000 (-7 # 2).
Proof.
  apply (timing_config_saturates (250005 # 10) (-7 # 2));
    unfold in_int32, Qle, Qlt; simpl; lia.
Defined.

(** The later of two configurations is the one in force. *)
Lemma setMaxMicros_overrides (a b : number) (s : ultrasonic.State) :
  snd (ultrasonic.setMaxMicros b (snd (ultrasonic.setMaxMicros a s)))
  = snd (ultrasonic.setMaxMicros b s).
Proof. reflexivity. Qed.

(** ** Shots and pulse measurements of an aggregate call *)

Lemma polarities_app (l l' : list Event) :
  polarities (l ++ l') = polarities l ++ polarities l'.
Proof. unfold polarities. apply flat_map_app. Qed.

Lemma polarities_batch (trig echo : DigitalPin) (maxUs : Z) (ds : list Z) :
  polarities (batch_events trig echo maxUs ds) = repeat High (length ds).
Proof.
  induction ds as [| d ds IH]; [reflexivity |].
  unfold batch_events in *. cbn [flat_map length repeat].
  rewrite polarities_app, IH. reflexivity.
Qed.

(** X2. Whatever number is passed as [samples], [read] takes between 1 and 10
    single shots; each makes one HIGH pulse measurement and is followed by
    one pause of 10 ms. *)
Theorem read_takes_1_to_10_shots :
  forall (unit : ultrasonic.Unit) (samples : number) (s : ultrasonic.State),
    let s' := snd (ultrasonic.read unit samples s) in
    let k := (n_pulse (ultrasonic.hw s') - n_pulse (ultrasonic.hw s))%nat in
    let new := events_since (log (ultrasonic.hw s)) (log (ultrasonic.hw s')) in
    (1 <= k <= 10)%nat /\
    n_pulse (ultrasonic.hw s') = (n_pulse (ultrasonic.hw s) + k)%nat /\
    pauses 10 new = k /\
    polarities new = repeat High k.
Proof.
  intros unit samples s. cbv zeta. rewrite read_run. cbn [snd].
  unfold with_hw. cbn [ultrasonic.hw log n_pulse].
  set (k := Z.to_nat (Math.max 1 (Math.min 10 (ToInt32 samples)))).
  assert (Hk : (1 <= k <= 10)%nat).
  { subst k. pose proof (clamp_range 1 10 (ToInt32 samples)). lia. }
  replace (n_pulse (ultrasonic.hw s) + k - n_pulse (ultrasonic.hw s))%nat
    with k by lia.
  rewrite events_since_app, pauses_batch, polarities_batch,
    next_pulses_length.
  auto.
Qed.

Lemma attempts_ge_1 (d1 d2 d3 : Z) : (1 <= attempts d1 d2 d3)%nat.
Proof. unfold attempts. destruct (0 <? d1), (0 <? d2), (0 <? d3); lia. Qed.

(** The sampling loop of [distance] on any [vals]. *)
Lemma collect_loop_run (k : nat) :
  forall (i : Z) (vals : list number) (s : ultrasonic33.State),
    let e := echo_in (ultrasonic33.hw s) in
    let n := n_pulse (ultrasonic33.hw s) in
    for_loop k i (fun _ => ultrasonic33.distance_body) vals s =
    (vals ++ loop_vals e k n,
     with_hw33 s
       (mkHw e (loop_pulses e k n)
          (log (ultrasonic33.hw s) ++
           loop_events (ultrasonic33._trig s) (ultrasonic33._echo s)
             (ultrasonic33._maxUs s) (ultrasonic33._settleUs s) e k n))).
Proof.
  induction k as [| k IH]; intros i vals s.
  - destruct s as [t p m u [ei n l]]. cbn. unfold ret, with_hw33. cbn.
    now rewrite !app_nil_r.
  - cbn [for_loop]. unfold bind. rewrite distance_body_run.
    cbv beta iota zeta. rewrite IH.
    destruct s as [t p m u [ei n l]]. unfold with_hw33.
    cbn [ultrasonic33.hw ultrasonic33._trig ultrasonic33._echo
         ultrasonic33._maxUs ultrasonic33._settleUs echo_in n_pulse log
         loop_vals loop_pulses loop_events].
    f_equal.
    + unfold Array.push. destruct (0 <? kept _ _ _ _);
        [now rewrite <- app_assoc | reflexivity].
    + now rewrite <- !app_assoc.
Qed.

Lemma collect_run (samples : number) (r : ultrasonic33.State) :
  let e := echo_in (ultrasonic33.hw r) in
  let n := n_pulse (ultrasonic33.hw r) in
  let k := trip_count samples in
  collect samples r =
  (loop_vals e k n,
   with_hw33 r
     (mkHw e (loop_pulses e k n)
        (log (ultrasonic33.hw r) ++
         loop_events (ultrasonic33._trig r) (ultrasonic33._echo r)
           (ultrasonic33._maxUs r) (ultrasonic33._settleUs r) e k n))).
Proof. unfold collect. now rewrite collect_loop_run. Qed.

Lemma pauses_loop_events (trig echo : DigitalPin) (maxUs settleUs : Z)
    (e : nat -> Z) (k : nat) :
  forall n, pauses 20 (loop_events trig echo maxUs settleUs e k n) = k.
Proof.
  induction k as [| k IH]; intros n; [reflexivity |].
  cbn [loop_events]. rewrite !pauses_app, pauses_ladder, IH. reflexivity.
Qed.

Lemma loop_pulses_bounds (e : nat -> Z) (k : nat) :
  forall n, (n + k <= loop_pulses e k n <= n + 4 * k)%nat.
Proof.
  induction k as [| k IH]; intros n; [cbn; lia |].
  cbn [loop_pulses].
  pose proof (attempts_ge_1 (e n) (e (1 + n)%nat) (e (2 + n)%nat)).
  pose proof (attempts_le_4 (e n) (e (1 + n)%nat) (e (2 + n)%nat)).
  specialize (IH (attempts (e n) (e (1 + n)%nat) (e (2 + n)%nat) + n)%nat).
  lia.
Qed.

(** X3. [distance] takes one single shot for every integer from 0 that is
    below [samples] (none when [samples] is not positive), and each shot
    costs between one and four pulse measurements. *)
Theorem distance_pulse_budget :
  forall (unit : ultrasonic33.Unit) (samples : number)
         (r : ultrasonic33.State),
    let r' := snd (ultrasonic33.distance unit samples r) in
    let n := Z.to_nat (Qceiling samples) in
    pauses 20 (events_since (log (ultrasonic33.hw r))
                 (log (ultrasonic33.hw r'))) = n /\
    (n_pulse (ultrasonic33.hw r) + n <= n_pulse (ultrasonic33.hw r')
     <= n_pulse (ultrasonic33.hw r) + 4 * n)%nat.
Proof.
  intros unit samples r. cbv zeta. rewrite distance_run, collect_run.
  cbn [snd]. unfold with_hw33. cbn [ultrasonic33.hw log n_pulse].
  rewrite events_since_app, pauses_loop_events. split; [reflexivity |].
  apply loop_pulses_bounds.
Qed.

(** ** Measurements and the configuration *)

Lemma std_event_batch (trig echo : DigitalPin) (maxUs : Z) (ds : list Z) :
  Forall (std_event trig echo maxUs) (batch_events trig echo maxUs ds).
Proof.
  induction ds as [| d ds IH]; [constructor |].
  unfold batch_events in *. cbn [flat_map]. apply Forall_app. split; [| exact IH].
  unfold shot_events. cbn [app].
  repeat apply Forall_cons; try apply Forall_nil; cbn; auto.
Qed.

Lemma robust_event_ladder (trig echo : DigitalPin) (maxUs settleUs : Z)
    (d1 d2 d3 d4 : Z) :
  Forall (robust_event trig echo maxUs settleUs)
         (ladder_events trig echo maxUs settleUs d1 d2 d3 d4).
Proof.
  unfold ladder_events, trigger30, retrigger20.
  destruct (0 <? d1), (0 <? d2), (0 <? d3); cbn [app];
    repeat apply Forall_cons; try apply Forall_nil; cbn; auto 10.
Qed.

Lemma robust_event_loop (trig echo : DigitalPin) (maxUs settleUs : Z)
    (e : nat -> Z) (k : nat) :
  forall n,
    Forall (robust_event trig echo maxUs settleUs)
           (loop_events trig echo maxUs settleUs e k n).
Proof.
  induction k as [| k IH]; intros n; [constructor |].
  cbn [loop_events]. apply Forall_app. split; [apply robust_event_ladder |].
  apply Forall_app. split; [| apply IH].
  apply Forall_cons; [reflexivity | apply Forall_nil].
Qed.

Lemma read_events (unit : ultrasonic.Unit) (samples : number)
    (s : ultrasonic.State) :
  Forall (std_event (ultrasonic._trig s) (ultrasonic._echo s)
                    (ultrasonic._maxUs s))
         (events_since (log (ultrasonic.hw s))
            (log (ultrasonic.hw (snd (ultrasonic.read unit samples s))))).
Proof.
  rewrite read_run. cbn [snd]. unfold with_hw. cbn [ultrasonic.hw log].
  rewrite events_since_app. apply std_event_batch.
Qed.

Lemma distance_events (unit : ultrasonic33.Unit) (samples : number)
    (r : ultrasonic33.State) :
  Forall (robust_event (ultrasonic33._trig r) (ultrasonic33._echo r)
                       (ultrasonic33._maxUs r) (ultrasonic33._settleUs r))
         (events_since (log (ultrasonic33.hw r))
            (log (ultrasonic33.hw
                    (snd (ultrasonic33.distance unit samples r))))).
Proof.
  rewrite distance_run, collect_run. cbn [snd]. unfold with_hw33.
  cbn [ultrasonic33.hw log]. rewrite events_since_app.
  apply robust_event_loop.
Qed.

(** X4. An aggregate call of either variant drives no pin but the stored
    trigger, listens on no pin but the stored echo with the stored
    time-out, and leaves the stored configuration and the registered
    watchers as they were. *)
Theorem measurement_uses_configuration :
  forall (unit : ultrasonic.Unit) (unit33 : ultrasonic33.Unit)
         (samples samples33 : number)
         (s : ultrasonic.State) (r : ultrasonic33.State),
    let s' := snd (ultrasonic.read unit samples s) in
    let r' := snd (ultrasonic33.distance unit33 samples33 r) in
    Forall (std_event (ultrasonic._trig s) (ultrasonic._echo s)
                      (ultrasonic._maxUs s))
           (events_since (log (ultrasonic.hw s)) (log (ultrasonic.hw s'))) /\
    (ultrasonic._trig s', ultrasonic._echo s', ultrasonic._maxUs s',
     ultrasonic._polling s', ultrasonic.fibers s')
    = (ultrasonic._trig s, ultrasonic._echo s, ultrasonic._maxUs s,
       ultrasonic._polling s, ultrasonic.fibers s) /\
    Forall (robust_event (ultrasonic33._trig r) (ultrasonic33._echo r)
                         (ultrasonic33._maxUs r) (ultrasonic33._settleUs r))
           (events_since (log (ultrasonic33.hw r)) (log (ultrasonic33.hw r'))) /\
    (ultrasonic33._trig r', ultrasonic33._echo r', ultrasonic33._maxUs r',
     ultrasonic33._settleUs r')
    = (ultrasonic33._trig r, ultrasonic33._echo r, ultrasonic33._maxUs r,
       ultrasonic33._settleUs r).
Proof.
  intros unit unit33 samples samples33 s r. cbv zeta.
  split; [apply read_events |].
  split; [now rewrite read_run |].
  split; [apply distance_events |].
  now rewrite distance_run, collect_run.
Qed.

Lemma setPins33_run (trig echo : DigitalPin) (r : ultrasonic33.State) :
  snd (ultrasonic33.setPins trig echo r) =
  ultrasonic33.mkState trig echo (ultrasonic33._maxUs r)
    (ultrasonic33._settleUs r)
    (mkHw (echo_in (ultrasonic33.hw r)) (n_pulse (ultrasonic33.hw r))
          (log (ultrasonic33.hw r) ++
           [SetPull echo PullNone; DigitalWrite trig 0; Pause 10])).
Proof.
  destruct r as [t e m u [ei n l]]. cbn. unfold hw_emit. cbn.
  now rewrite <- !app_assoc.
Qed.

(** X5. After [setPins] and a timing call, the next aggregate call works on
    the new pins with the clamped timing: [setPins] itself releases the
    pull of the new echo pin and drives the new trigger low, and every
    pulse measurement that follows is on the new echo pin with the stored
    time-out. *)
Theorem reconfiguration_takes_effect :
  forall (trig echo : DigitalPin) (maxMicros settleMicros : number)
         (unit : ultrasonic.Unit) (unit33 : ultrasonic33.Unit)
         (samples samples33 : number)
         (s : ultrasonic.State) (r : ultrasonic33.State),
    let s1 := snd (ultrasonic.setPins trig echo s) in
    let s2 := snd (ultrasonic.setMaxMicros maxMicros s1) in
    let s3 := snd (ultrasonic.read unit samples s2) in
    let r1 := snd (ultrasonic33.setPins trig echo r) in
    let r2 := snd (ultrasonic33.setTiming maxMicros settleMicros r1) in
    let r3 := snd (ultrasonic33.distance unit33 samples33 r2) in
    let maxUs := Math.max 3000 (Math.min 40000 (ToInt32 maxMicros)) in
    let maxUs33 := Math.max 15000 (Math.min 60000 (ToInt32 maxMicros)) in
    let settleUs := Math.max 100 (Math.min 2000 (ToInt32 settleMicros)) in
    events_since (log (ultrasonic.hw s)) (log (ultrasonic.hw s2))
    = [SetPull echo PullNone; DigitalWrite trig 0; WaitMicros 5] /\
    Forall (std_event trig echo maxUs)
           (events_since (log (ultrasonic.hw s2)) (log (ultrasonic.hw s3))) /\
    events_since (log (ultrasonic33.hw r)) (log (ultrasonic33.hw r2))
    = [SetPull echo PullNone; DigitalWrite trig 0; Pause 10] /\
    Forall (robust_event trig echo maxUs33 settleUs)
           (events_since (log (ultrasonic33.hw r2)) (log (ultrasonic33.hw r3))).
Proof.
  intros trig echo maxMicros settleMicros unit unit33 samples samples33 s r.
  cbv zeta.
  pose proof (read_events unit samples
                (snd (ultrasonic.setMaxMicros maxMicros
                        (snd (ultrasonic.setPins trig echo s))))) as Hs.
  pose proof (distance_events unit33 samples33
                (snd (ultrasonic33.setTiming maxMicros settleMicros
                        (snd (ultrasonic33.setPins trig echo r))))) as Hr.
  rewrite setPins_run in *. rewrite setPins33_run in *.
  cbn [ultrasonic.setMaxMicros ultrasonic.set_maxUs ultrasonic33.setTiming
       ultrasonic33.set_timing snd ultrasonic.hw ultrasonic33.hw log
       ultrasonic._trig ultrasonic._echo ultrasonic._maxUs
       ultrasonic33._trig ultrasonic33._echo ultrasonic33._maxUs
       ultrasonic33._settleUs] in *.
  rewrite !events_since_app. auto.
Qed.

(** ** One-shot reading *)

Lemma mean_singleton (c : number) : (mean [c] == c)%Q.
Proof. unfold mean, Qsum. cbn. field. Qed.

(** X6. [distanceCm] is one single shot: it returns what the shot measured and
    adds the calls of one shot and one pause of 10 ms to the board. *)
Theorem distanceCm_is_one_shot :
  forall s : ultrasonic.State,
    let d := echo_in (ultrasonic.hw s) (n_pulse (ultrasonic.hw s)) in
    let t := ultrasonic._trig s in
    let out := ultrasonic.distanceCm s in
    (fst out == fst (ultrasonic.measureOnceCm s))%Q /\
    (fst out == if 0 <? d then inject_Z d / 58 else 0)%Q /\
    events_since (log (ultrasonic.hw s)) (log (ultrasonic.hw (snd out)))
    = [DigitalWrite t 0; WaitMicros 2; DigitalWrite t 1; WaitMicros 10;
       DigitalWrite t 0;
       PulseIn (ultrasonic._echo s) High (ultrasonic._maxUs s) d; Pause 10] /\
    n_pulse (ultrasonic.hw (snd out)) = (n_pulse (ultrasonic.hw s) + 1)%nat.
Proof.
  intros s d t out. subst out. rewrite distanceCm_run, measureOnceCm_run.
  cbn [fst snd]. fold d. unfold with_hw. cbn [ultrasonic.hw log n_pulse].
  rewrite events_since_app.
  assert (Hm : (mean (valid [cm_of d]) == cm_of d)%Q).
  { unfold valid. cbn [filter]. rewrite cm_of_valid.
    destruct (Z.ltb_spec 0 d) as [Hd | Hd]; [apply mean_singleton |].
    unfold cm_of. destruct (Z.leb_spec d 0); [reflexivity | lia]. }
  split; [exact Hm |]. split; [| split; reflexivity].
  rewrite Hm. unfold cm_of. rewrite leb_0_ltb.
  destruct (0 <? d); reflexivity.
Qed.

(** ** The trigger line *)

Lemma last_write_app (l l' : list Event) :
  last_write (l ++ l') =
  match last_write l' with Some w => Some w | None => last_write l end.
Proof.
  induction l as [| e l IH]; cbn [app last_write].
  - now destruct (last_write l').
  - rewrite IH. now destruct (last_write l').
Qed.

Lemma last_write_batch (trig echo : DigitalPin) (maxUs : Z) (ds : list Z) :
  last_write (batch_events trig echo maxUs ds) =
  match ds with [] => None | _ :: _ => Some (trig, 0) end.
Proof.
  induction ds as [| d ds IH]; [reflexivity |].
  unfold batch_events in *. cbn [flat_map]. rewrite last_write_app, IH.
  destruct ds; reflexivity.
Qed.

Lemma last_write_ladder (trig echo : DigitalPin) (maxUs settleUs : Z)
    (d1 d2 d3 d4 : Z) :
  last_write (ladder_events trig echo maxUs settleUs d1 d2 d3 d4)
  = Some (trig, 0).
Proof.
  unfold ladder_events. destruct (0 <? d1), (0 <? d2), (0 <? d3); reflexivity.
Qed.

Lemma last_write_loop (trig echo : DigitalPin) (maxUs settleUs : Z)
    (e : nat -> Z) (k : nat) :
  forall n,
    last_write (loop_events trig echo maxUs settleUs e k n) =
    match k with O => None | S _ => Some (trig, 0) end.
Proof.
  induction k as [| k IH]; intros n; [reflexivity |].
  cbn [loop_events]. rewrite !last_write_app, IH, last_write_ladder.
  destruct k; reflexivity.
Qed.

(** X7. Every interface call that writes the trigger pin leaves it low: after
    [setPins], [read], a watcher turn and (when it takes a shot at all)
    [distance], the last level written to a pin is 0 on the trigger. *)
Theorem trigger_left_low :
  forall (trig echo : DigitalPin) (unit : ultrasonic.Unit)
         (unit33 : ultrasonic33.Unit) (samples samples33 : number)
         (f : ultrasonic.Fiber)
         (s : ultrasonic.State) (r : ultrasonic33.State),
    last_write (log (ultrasonic.hw (snd (ultrasonic.setPins trig echo s))))
    = Some (trig, 0) /\
    last_write (log (ultrasonic.hw (snd (ultrasonic.read unit samples s))))
    = Some (ultrasonic._trig s, 0) /\
    last_write (log (ultrasonic.hw (snd (ultrasonic.poll f s))))
    = Some (ultrasonic._trig s, 0) /\
    last_write (log (ultrasonic33.hw (snd (ultrasonic33.setPins trig echo r))))
    = Some (trig, 0) /\
    last_write
      (log (ultrasonic33.hw (snd (ultrasonic33.distance unit33 samples33 r))))
    = match trip_count samples33 with
      | O => last_write (log (ultrasonic33.hw r))
      | S _ => Some (ultrasonic33._trig r, 0)
      end.
Proof.
  intros trig echo unit unit33 samples samples33 f s r.
  split; [rewrite setPins_run; cbn [ultrasonic.hw log];
          now rewrite last_write_app |].
  split.
  { rewrite read_run. cbn [snd]. unfold with_hw. cbn [ultrasonic.hw log].
    rewrite last_write_app, last_write_batch.
    pose proof (next_pulses_length (ultrasonic.hw s)
      (Z.to_nat (Math.max 1 (Math.min 10 (ToInt32 samples))))) as Hl.
    pose proof (clamp_range 1 10 (ToInt32 samples)).
    destruct (next_pulses _ _); [cbn in Hl; lia | reflexivity]. }
  split.
  { rewrite poll_run. cbn [snd]. unfold with_hw. cbn [ultrasonic.hw log].
    rewrite !last_write_app.
    destruct (Qltb 0 _ && Qltb _ _); reflexivity. }
  split; [rewrite setPins33_run; cbn [ultrasonic33.hw log];
          now rewrite last_write_app |].
  rewrite distance_run, collect_run. cbn [snd]. unfold with_hw33.
  cbn [ultrasonic33.hw log]. rewrite last_write_app, last_write_loop.
  destruct (trip_count samples33); reflexivity.
Qed.

(** ** Zero as the failure sentinel *)

Lemma fold_Qplus_pos (l : list number) :
  forall a : number, (0 < a)%Q -> Forall (Qlt 0) l ->
  (0 < fold_left Qplus l a)%Q.
Proof.
  induction l as [| x t IH]; intros a Ha Hl; simpl; [exact Ha |].
  inversion Hl; subst. apply IH; auto.
  apply Qlt_trans with (0 + x)%Q; [now rewrite Qplus_0_l |].
  now apply Qplus_lt_l.
Qed.

Lemma mean_pos (l : list number) :
  l <> [] -> Forall (Qlt 0) l -> (0 < mean l)%Q.
Proof.
  intros Hne Hl. unfold mean, Qsum. destruct l as [| x t]; [congruence |].
  change (0 <? Z.of_nat (length (x :: t))) with true. cbv iota.
  apply Qlt_shift_div_l.
  - change 0%Q with (inject_Z 0). rewrite <- Zlt_Qlt. cbn [length]. lia.
  - rewrite Qmult_0_l. cbn [fold_left]. inversion Hl; subst.
    apply fold_Qplus_pos; [now rewrite Qplus_0_l | assumption].
Qed.

Lemma inches_pos (x : number) : (0 < x)%Q -> (0 < inches x)%Q.
Proof.
  intros Hx. unfold inches. apply Qlt_shift_div_l; [reflexivity |].
  now rewrite Qmult_0_l.
Qed.

(** X8. A result of 0 is never a measurement: [read] and [distance] return 0
    exactly when no shot of the call gave a sample above 0, and a
    positive value otherwise. *)
Theorem zero_iff_no_valid_sample :
  forall (unit : ultrasonic.Unit) (unit33 : ultrasonic33.Unit)
         (samples samples33 : number)
         (s : ultrasonic.State) (r : ultrasonic33.State),
    let vs := valid (map cm_of (next_pulses (ultrasonic.hw s)
                (Z.to_nat (Math.max 1 (Math.min 10 (ToInt32 samples)))))) in
    let ws := fst (collect samples33 r) in
    let a := fst (ultrasonic.read unit samples s) in
    let b := fst (ultrasonic33.distance unit33 samples33 r) in
    ((a == 0)%Q <-> vs = []) /\ ((0 < a)%Q <-> vs <> []) /\
    ((b == 0)%Q <-> ws = []) /\ ((0 < b)%Q <-> ws <> []).
Proof.
  intros unit unit33 samples samples33 s r vs ws a b.
  assert (Ha : (vs = [] /\ (a == 0)%Q) \/ (vs <> [] /\ (0 < a)%Q)).
  { subst a. rewrite read_run. cbn [fst]. fold vs.
    destruct vs as [| v vs'] eqn:E.
    - left. split; [reflexivity |]. destruct unit; reflexivity.
    - right. split; [discriminate |].
      assert (0 < mean (v :: vs'))%Q as Hm.
      { apply mean_pos; [discriminate |]. rewrite <- E. apply valid_all_pos. }
      destruct unit; [exact Hm | now apply inches_pos]. }
  assert (Hb : (ws = [] /\ (b == 0)%Q) \/ (ws <> [] /\ (0 < b)%Q)).
  { subst b. rewrite distance_run. cbn [fst]. fold ws.
    pose proof (collect_all_pos samples33 r) as Hpos. fold ws in Hpos.
    destruct ws as [| w ws'] eqn:E.
    - left. split; reflexivity.
    - right. split; [discriminate |].
      assert (0 < upper_middle (w :: ws'))%Q as Hm.
      { eapply Forall_forall; [exact Hpos |].
        apply upper_middle_In. discriminate. }
      destruct unit33; [exact Hm | now apply inches_pos]. }
  repeat split; intros H;
    destruct Ha as [[Ha1 Ha2] | [Ha1 Ha2]];
    destruct Hb as [[Hb1 Hb2] | [Hb1 Hb2]];
    try congruence; try assumption;
    try (rewrite H in *; exfalso; eapply Qlt_irrefl; eassumption);
    try (exfalso; rewrite Ha2 in H; eapply Qlt_irrefl; eassumption);
    try (exfalso; rewrite Hb2 in H; eapply Qlt_irrefl; eassumption);
    try (exfalso; auto).
Qed.

(** ** A sensor that always answers *)

Lemma loop_healthy (e : nat -> Z) (k : nat) :
  forall n : nat,
    (forall j, (n <= j)%nat -> 0 < e j) ->
    loop_vals e k n = map (fun j => cm_of (e (n + j)%nat)) (seq 0 k) /\
    loop_pulses e k n = (n + k)%nat /\
    forall trig echo maxUs settleUs,
      polarities (loop_events trig echo maxUs settleUs e k n) = repeat High k.
Proof.
  induction k as [| k IH]; intros n Hpos.
  - cbn. repeat split. lia.
  - assert (H1 : (0 <? e n) = true) by (apply Z.ltb_lt, Hpos; lia).
    destruct (IH (1 + n)%nat) as (Hv & Hp & He);
      [intros j Hj; apply Hpos; lia |].
    cbn [loop_vals loop_pulses loop_events]. unfold kept, attempts.
    rewrite H1. cbv iota. rewrite H1. cbv iota.
    rewrite Hv, Hp. repeat split.
    + cbn [seq map app]. rewrite Nat.add_0_r. f_equal.
      rewrite <- seq_shift, map_map. apply map_ext. intros j.
      f_equal. f_equal. lia.
    + lia.
    + intros trig echo maxUs settleUs. rewrite !polarities_app, He.
      unfold ladder_events, trigger30. rewrite H1. reflexivity.
Qed.

(** X9. When every echo arrives (every answer of [pulseIn] is positive) no
    sample is dropped and no retry is made: [read] averages all of its
    shots, and [distance] makes one HIGH pulse measurement per shot and
    picks the upper-middle of the conversions of the successive answers. *)
Theorem healthy_sensor_keeps_every_sample :
  forall (samples samples33 : number)
         (s : ultrasonic.State) (r : ultrasonic33.State),
    (forall j, (n_pulse (ultrasonic.hw s) <= j)%nat ->
               0 < echo_in (ultrasonic.hw s) j) ->
    (forall j, (n_pulse (ultrasonic33.hw r) <= j)%nat ->
               0 < echo_in (ultrasonic33.hw r) j) ->
    let k := Z.to_nat (Math.max 1 (Math.min 10 (ToInt32 samples))) in
    let k33 := trip_count samples33 in
    let r' := snd (ultrasonic33.distance ultrasonic33.Centimeters samples33 r) in
    fst (ultrasonic.read ultrasonic.Centimeters samples s)
    = mean (map (fun d => inject_Z d / 58)%Q (next_pulses (ultrasonic.hw s) k)) /\
    fst (ultrasonic33.distance ultrasonic33.Centimeters samples33 r)
    = upper_middle (map (fun d => inject_Z d / 58)%Q
                        (next_pulses (ultrasonic33.hw r) k33)) /\
    n_pulse (ultrasonic33.hw r') = (n_pulse (ultrasonic33.hw r) + k33)%nat /\
    polarities (events_since (log (ultrasonic33.hw r))
                  (log (ultrasonic33.hw r'))) = repeat High k33.
Proof.
  intros samples samples33 s r Hs Hr k k33 r'.
  assert (Hcm : forall (h : Hw) (m : nat),
             (forall j, (n_pulse h <= j)%nat -> 0 < echo_in h j) ->
             map cm_of (next_pulses h m)
             = map (fun d => inject_Z d / 58)%Q (next_pulses h m)).
  { intros h m Hh. apply map_ext_in. intros d Hd.
    unfold next_pulses in Hd. apply in_map_iff in Hd as (j & <- & _).
    unfold cm_of. specialize (Hh (n_pulse h + j)%nat ltac:(lia)).
    destruct (Z.leb_spec (echo_in h (n_pulse h + j)) 0); [lia | reflexivity]. }
  assert (Hvalid : forall (h : Hw) (m : nat),
             (forall j, (n_pulse h <= j)%nat -> 0 < echo_in h j) ->
             valid (map cm_of (next_pulses h m)) = map cm_of (next_pulses h m)).
  { intros h m Hh. unfold valid. apply forallb_filter_id.
    apply forallb_forall. intros x Hx.
    apply in_map_iff in Hx as (d & <- & Hd).
    unfold next_pulses in Hd. apply in_map_iff in Hd as (j & <- & _).
    rewrite cm_of_valid. apply Z.ltb_lt, Hh. lia. }
  destruct (loop_healthy (echo_in (ultrasonic33.hw r)) k33
              (n_pulse (ultrasonic33.hw r)) Hr) as (Hv & Hp & He).
  split.
  { rewrite read_run. cbn [fst]. fold k.
    now rewrite Hvalid, Hcm. }
  subst r'. rewrite distance_run, collect_run. cbn [fst snd]. fold k33.
  unfold with_hw33. cbn [ultrasonic33.hw log n_pulse].
  rewrite events_since_app, He, Hp, Hv.
  assert (E : map (fun j => cm_of (echo_in (ultrasonic33.hw r)
                                     (n_pulse (ultrasonic33.hw r) + j)%nat))
                  (seq 0 k33)
              = map cm_of (next_pulses (ultrasonic33.hw r) k33))
    by (unfold next_pulses; now rewrite map_map).
  rewrite E, (Hcm _ k33 Hr).
  split; [| split; reflexivity].
  generalize (map (fun d : Z => (inject_Z d / 58)%Q)
                  (next_pulses (ultrasonic33.hw r) k33)).
  intros [| x l]; reflexivity.
Qed.

(** ** The median lies among the samples *)

Lemma count_app (f : number -> bool) (l l' : list number) :
  count f (l ++ l') = (count f l + count f l')%nat.
Proof. unfold count. now rewrite filter_app, length_app. Qed.

Lemma count_perm (f : number -> bool) (l l' : list number) :
  Permutation l l' -> count f l = count f l'.
Proof.
  unfold count. induction 1 as [| x l l' _ IH | x y l | l l' l'' _ IH1 _ IH2];
    cbn [filter].
  - reflexivity.
  - destruct (f x); cbn [length]; now rewrite IH.
  - destruct (f x), (f y); reflexivity.
  - now rewrite IH1.
Qed.

Lemma count_all (f : number -> bool) (l : list number) :
  Forall (fun x => f x = true) l -> count f l = length l.
Proof.
  unfold count. induction 1 as [| x l Hx _ IH]; [reflexivity |].
  cbn [filter]. rewrite Hx. cbn [length]. now rewrite IH.
Qed.

Lemma sorted_prefix_le (l : list number) :
  StronglySorted Qle l ->
  forall k, (k < length l)%nat ->
    Forall (fun x => Qle_bool x (nth k l 0%Q) = true) (firstn (S k) l).
Proof.
  induction 1 as [| a t Ht IH Ha]; intros k Hk; [cbn in Hk; lia |].
  destruct k as [| k].
  - cbn. constructor; [| constructor]. apply Qle_bool_iff, Qle_refl.
  - cbn [length] in Hk. change (firstn (S (S k)) (a :: t))
      with (a :: firstn (S k) t). cbn [nth].
    constructor; [| apply IH; lia].
    apply Qle_bool_iff. eapply Forall_forall; [exact Ha |].
    apply nth_In. lia.
Qed.

Lemma sorted_suffix_ge (l : list number) :
  StronglySorted Qle l ->
  forall k, (k < length l)%nat ->
    Forall (fun x => Qle_bool (nth k l 0%Q) x = true) (skipn k l).
Proof.
  induction 1 as [| a t Ht IH Ha]; intros k Hk; [cbn in Hk; lia |].
  destruct k as [| k].
  - cbn [skipn nth]. constructor.
    + apply Qle_bool_iff, Qle_refl.
    + eapply Forall_impl; [| exact Ha]. intros x Hx. now apply Qle_bool_iff.
  - cbn [length] in Hk. cbn [skipn nth]. apply IH. lia.
Qed.

(** X11. The value that [distance] returns in centimetres is one of the samples
    it collected, never a blend of two: more than half of the samples are
    at most that value and at least half are at least that value. *)
Theorem distance_is_a_middle_sample :
  forall (samples : number) (r : ultrasonic33.State),
    let ws := fst (collect samples r) in
    let m := fst (ultrasonic33.distance ultrasonic33.Centimeters samples r) in
    ws <> [] ->
    In m ws /\
    (length ws < 2 * count (fun x => Qle_bool x m) ws)%nat /\
    (length ws <= 2 * count (fun x => Qle_bool m x) ws)%nat.
Proof.
  intros samples r ws m Hne.
  assert (Hm : m = upper_middle ws).
  { subst m. rewrite distance_run. cbn [fst]. fold ws.
    destruct ws; [congruence | reflexivity]. }
  rewrite Hm. split; [now apply upper_middle_In |].
  unfold upper_middle.
  set (L := Array.sort ascending ws).
  set (k := (length ws / 2)%nat).
  assert (HL : StronglySorted Qle L)
    by (apply Sorted_StronglySorted; [exact Qle_transitive | apply sort_sorted]).
  assert (Hlen : length L = length ws) by apply sort_length.
  assert (Hk : (k < length L)%nat)
    by (rewrite Hlen; now apply upper_middle_index).
  assert (Hdiv : (2 * k <= length ws < 2 * k + 2)%nat).
  { subst k. pose proof (Nat.div_mod_eq (length ws) 2).
    pose proof (Nat.mod_upper_bound (length ws) 2). lia. }
  rewrite !(count_perm _ ws L) by apply sort_perm.
  set (m' := nth k L 0%Q).
  assert (H1 : count (fun x => Qle_bool x m') L
               = (count (fun x => Qle_bool x m') (firstn (S k) L)
                  + count (fun x => Qle_bool x m') (skipn (S k) L))%nat)
    by (now rewrite <- count_app, firstn_skipn).
  assert (H2 : count (fun x => Qle_bool m' x) L
               = (count (fun x => Qle_bool m' x) (firstn k L)
                  + count (fun x => Qle_bool m' x) (skipn k L))%nat)
    by (now rewrite <- count_app, firstn_skipn).
  rewrite (count_all _ (firstn (S k) L)) in H1
    by (subst m'; now apply sorted_prefix_le).
  rewrite (count_all _ (skipn k L)) in H2
    by (subst m'; now apply sorted_suffix_ge).
  rewrite length_firstn in H1. rewrite length_skipn in H2. lia.
Qed.

Lemma distance_is_a_middle_sample_witness :
  let r := ultrasonic33.init (hw0 (echo_list [580; 1160; 1740; 2320]%Z)) in
  let ws := fst (collect 4%Q r) in
  let m := fst (ultrasonic33.distance ultrasonic33.Centimeters 4%Q r) in
  In m ws /\
  (length ws < 2 * count (fun x => Qle_bool x m) ws)%nat /\
  (length ws <= 2 * count (fun x => Qle_bool m x) ws)%nat.
Proof.
  apply (distance_is_a_middle_sample 4%Q
           (ultrasonic33.init (hw0 (echo_list [580; 1160; 1740; 2320]%Z)))).
  vm_compute. discriminate.
Defined.

(** ** A steady target *)

Lemma trip_count_pos (samples : number) :
  (0 < samples)%Q -> (1 <= trip_count samples)%nat.
Proof.
  intros H. unfold trip_count.
  pose proof (Qle_ceiling samples) as Hc.
  assert (inject_Z 0 < inject_Z (Qceiling samples))%Q as Hlt
    by (eapply Qlt_le_trans; eauto).
  rewrite <- Zlt_Qlt in Hlt. lia.
Qed.

(** X12. With the same positive echo time [d] on every pulse measurement,
    the robust variant returns [d / 58] centimetres ([d / 58 / 2.54]
    inches), whatever the positive number of samples: taking the median
    does not move a steady reading. *)
Theorem steady_target_distance :
  forall (d : Z) (unit33 : ultrasonic33.Unit) (samples33 : number)
         (r : ultrasonic33.State),
    0 < d ->
    (forall j, (n_pulse (ultrasonic33.hw r) <= j)%nat ->
               echo_in (ultrasonic33.hw r) j = d) ->
    (0 < samples33)%Q ->
    fst (ultrasonic33.distance unit33 samples33 r) =
    match unit33 with
    | ultrasonic33.Inches => (inject_Z d / 58 / (254 # 100))%Q
    | ultrasonic33.Centimeters => (inject_Z d / 58)%Q
    end.
Proof.
  intros d unit33 samples33 r Hd Hr Hn.
  rewrite distance_run. cbn [fst].
  assert (Hpos : forall j, (n_pulse (ultrasonic33.hw r) <= j)%nat ->
                           0 < echo_in (ultrasonic33.hw r) j)
    by (intros j Hj; rewrite Hr by exact Hj; exact Hd).
  rewrite collect_run. cbn [fst].
  destruct (loop_healthy (echo_in (ultrasonic33.hw r)) (trip_count samples33)
              (n_pulse (ultrasonic33.hw r)) Hpos) as (Hv & _ & _).
  rewrite Hv. pose proof (trip_count_pos samples33 Hn) as Hk.
  set (ws := map _ (seq 0 (trip_count samples33))).
  assert (Hne : ws <> []).
  { subst ws. destruct (trip_count samples33); [lia | discriminate]. }
  assert (Hall : Forall (fun x => x = (inject_Z d / 58)%Q) ws).
  { subst ws. apply Forall_forall. intros x Hx.
    apply in_map_iff in Hx as (j & <- & _). rewrite Hr by lia.
    unfold cm_of. destruct (Z.leb_spec d 0); [lia | reflexivity]. }
  assert (Hm : upper_middle ws = (inject_Z d / 58)%Q).
  { eapply Forall_forall in Hall; [exact Hall |].
    now apply upper_middle_In. }
  destruct ws as [| w ws']; [congruence |].
  destruct unit33; rewrite Hm; reflexivity.
Qed.

Lemma steady_target_distance_witness :
  fst (ultrasonic33.distance ultrasonic33.Inches (5 # 2)
         (ultrasonic33.init (hw0 (echo_const 1473))))
  = (inject_Z 1473 / 58 / (254 # 100))%Q.
Proof.
  apply (steady_target_distance 1473 ultrasonic33.Inches (5 # 2)%Q
           (ultrasonic33.init (hw0 (echo_const 1473)))).
  - lia.
  - reflexivity.
  - reflexivity.
Defined.

(** The mean of the standard variant does move: summing three equal
    samples and dividing by 3 rounds twice.  Three echoes of 650 us read
    11.206896551724137 cm, below the single sample 11.206896551724139 of
    [distanceCm] (650 / 58), and three echoes of 100 us read above
    100 / 58. *)
Example steady_target_read_binary64 :
  let s650 := ultrasonic.init (hw0 (echo_const 650)) in
  let s100 := ultrasonic.init (hw0 (echo_const 100)) in
  fst (binary64.read ultrasonic.Centimeters 1%Q s650) = cm64 650 /\
  PrimFloat.ltb (fst (binary64.read ultrasonic.Centimeters 3%Q s650))
                (cm64 650) = true /\
  PrimFloat.ltb (cm64 100)
                (fst (binary64.read ultrasonic.Centimeters 3%Q s100)) = true.
Proof.
  intros s650 s100. split; [| split]; vm_compute; reflexivity.
Qed.

Lemma healthy_sensor_keeps_every_sample_witness :
  let s := ultrasonic.init (hw0 (fun j => 580 + Z.of_nat j)) in
  let r := ultrasonic33.init (hw0 (echo_const 870)) in
  let r' := snd (ultrasonic33.distance ultrasonic33.Centimeters 3%Q r) in
  fst (ultrasonic.read ultrasonic.Centimeters 2%Q s)
  = mean (map (fun d => inject_Z d / 58)%Q
              (next_pulses (ultrasonic.hw s)
                 (Z.to_nat (Math.max 1 (Math.min 10 (ToInt32 2%Q)))))) /\
  fst (ultrasonic33.distance ultrasonic33.Centimeters 3%Q r)
  = upper_middle (map (fun d => inject_Z d / 58)%Q
                      (next_pulses (ultrasonic33.hw r) (trip_count 3%Q))) /\
  n_pulse (ultrasonic33.hw r')
  = (n_pulse (ultrasonic33.hw r) + trip_count 3%Q)%nat /\
  polarities (events_since (log (ultrasonic33.hw r))
                (log (ultrasonic33.hw r'))) = repeat High (trip_count 3%Q).
Proof.
  apply (healthy_sensor_keeps_every_sample 2%Q 3%Q
           (ultrasonic.init (hw0 (fun j => 580 + Z.of_nat j)))
           (ultrasonic33.init (hw0 (echo_const 870)))).
  - intros j _. cbn [ultrasonic.hw ultrasonic.init hw0 echo_in]. lia.
  - intros j _. cbn [ultrasonic33.hw ultrasonic33.init hw0 echo_in].
    unfold echo_const. lia.
Defined.

(** ** The median and the sorting algorithm *)

(** X13. The value that [distance] returns does not depend on how the engine
    sorts [vals]: it equals the element at index floor(n / 2) of every
    ascending arrangement of the collected samples. *)
Theorem distance_any_ascending_order :
  forall (samples : number) (r : ultrasonic33.State) (l : list number),
    Permutation (fst (collect samples r)) l -> Sorted Qle l ->
    (fst (ultrasonic33.distance ultrasonic33.Centimeters samples r)
     == nth (length l / 2) l 0)%Q.
Proof.
  intros samples r l Hp Hs. rewrite distance_run. cbn [fst].
  destruct (fst (collect samples r)) as [| w ws] eqn:E.
  - apply Permutation_nil in Hp. subst l. reflexivity.
  - rewrite <- (Permutation_length Hp). symmetry.
    now apply upper_middle_any_sort.
Qed.

Lemma distance_any_ascending_order_witness :
  (fst (ultrasonic33.distance ultrasonic33.Centimeters 3%Q
          (ultrasonic33.init (hw0 (echo_list [696; 870; 522]%Z))))
   == nth (length [522 # 58; 696 # 58; 870 # 58] / 2)
          [522 # 58; 696 # 58; 870 # 58] 0)%Q.
Proof.
  apply (distance_any_ascending_order 3%Q
           (ultrasonic33.init (hw0 (echo_list [696; 870; 522]%Z)))
           [522 # 58; 696 # 58; 870 # 58]%Q).
  - vm_compute. apply Permutation_sym.
    apply (Permutation_cons_append [696 # 58; 870 # 58]%Q (522 # 58)%Q).
  - repeat constructor; unfold Qle; simpl; lia.
Defined.

(** ** Watchers *)

(** X14. Every call of [onDistanceLessThan] starts one more watcher, behind the
    ones already started and whether or not polling had begun; its
    threshold is stored within [2, 400]; the call raises [_polling] and
    touches neither the board nor the pins nor the time-out. *)
Theorem registrations_accumulate :
  forall (regs : list (number * nat)) (s : ultrasonic.State),
    let s' := snd (register_all regs s) in
    ultrasonic.fibers s' = ultrasonic.fibers s ++ map fiber_of regs /\
    Forall (fun f => 2 <= ultrasonic.f_threshold f <= 400)
           (map fiber_of regs) /\
    ultrasonic._polling s'
    = (ultrasonic._polling s || negb (length regs =? 0)%nat) /\
    (ultrasonic.hw s', ultrasonic._trig s', ultrasonic._echo s',
     ultrasonic._maxUs s')
    = (ultrasonic.hw s, ultrasonic._trig s, ultrasonic._echo s,
       ultrasonic._maxUs s).
Proof.
  induction regs as [| [threshold handler] regs IH]; intros s.
  - cbn. rewrite app_nil_r, orb_false_r. repeat split. constructor.
  - cbn [register_all]. unfold bind.
    pose proof (onDistanceLessThan_run threshold handler s) as Hrun.
    cbv zeta in Hrun.
    destruct (ultrasonic.onDistanceLessThan threshold handler s) as [[] s1].
    injection Hrun as ->. cbv zeta in IH |- *.
    destruct (IH (ultrasonic.mkState (ultrasonic._trig s) (ultrasonic._echo s)
                    (ultrasonic._maxUs s) true
                    (ultrasonic.fibers s ++
                     [ultrasonic.mkFiber
                        (Math.max 2 (Math.min 400 (ToInt32 threshold)))
                        handler])
                    (ultrasonic.hw s)))
      as (Hf & Hthr & Hpoll & Hframe).
    cbn [ultrasonic.fibers ultrasonic._polling ultrasonic.hw ultrasonic._trig
         ultrasonic._echo ultrasonic._maxUs] in Hf, Hpoll, Hframe.
    split; [rewrite Hf, <- app_assoc; reflexivity |].
    split.
    { cbn [map]. constructor; [| exact Hthr].
      unfold fiber_of. cbn. apply clamp_range. lia. }
    split; [rewrite Hpoll; cbn; now rewrite orb_true_r | exact Hframe].
Qed.

(** X15. No interface call and no watcher turn removes or changes a started
    watcher: there is no way to cancel one. *)
Theorem watchers_are_never_removed :
  forall s s' : ultrasonic.State,
    step s s' ->
    exists new : list ultrasonic.Fiber,
      ultrasonic.fibers s' = ultrasonic.fibers s ++ new /\
      (length new <= 1)%nat.
Proof.
  intros s s' Hstep.
  destruct Hstep as [trig echo s | maxMicros s | unit samples s | s
                    | threshold handler s | f s Hf].
  - exists []. rewrite setPins_run. cbn. rewrite app_nil_r. split; [reflexivity | lia].
  - exists []. cbn. rewrite app_nil_r. split; [reflexivity | lia].
  - exists []. rewrite read_run. cbn. rewrite app_nil_r. split; [reflexivity | lia].
  - exists []. rewrite distanceCm_run. cbn. rewrite app_nil_r. split; [reflexivity | lia].
  - eexists. rewrite onDistanceLessThan_run. cbn [snd ultrasonic.fibers].
    split; [reflexivity | cbn; lia].
  - exists []. rewrite poll_run. cbn. rewrite app_nil_r. split; [reflexivity | lia].
Qed.

Lemma watchers_are_never_removed_witness :
  let s := snd (ultrasonic.onDistanceLessThan 30%Q 1
                  (ultrasonic.init (hw0 (echo_const 500)))) in
  exists new : list ultrasonic.Fiber,
    ultrasonic.fibers (snd (ultrasonic.onDistanceLessThan 20%Q 2 s))
    = ultrasonic.fibers s ++ new /\
    (length new <= 1)%nat.
Proof.
  apply (watchers_are_never_removed
           (snd (ultrasonic.onDistanceLessThan 30%Q 1
                   (ultrasonic.init (hw0 (echo_const 500)))))).
  apply step_onDistanceLessThan.
Defined.

(** ** Witnesses of runs *)

Lemma reachable_wellformed_witness :
  wellformed
    (snd (ultrasonic.poll (ultrasonic.mkFiber 10 0)
            (snd (ultrasonic.onDistanceLessThan (107 # 10) 0
                    (snd (ultrasonic.setMaxMicros 1000000%Q
                            (ultrasonic.init (hw0 (echo_const 500))))))))).
Proof.
  apply (reachable_wellformed (echo_const 500)).
  eapply reachable_step.
  - eapply reachable_step.
    + eapply reachable_step; [apply reachable_init | apply step_setMaxMicros].
    + apply step_onDistanceLessThan.
  - apply step_turn. simpl. left. reflexivity.
Defined.

Lemma reachable33_wellformed_witness :
  wellformed33
    (snd (ultrasonic33.distance ultrasonic33.Inches 3%Q
            (snd (ultrasonic33.setTiming (-5)%Q 1000000%Q
                    (ultrasonic33.init (hw0 (echo_const 500))))))).
Proof.
  apply (reachable33_wellformed (echo_const 500)).
  eapply reachable33_step.
  - eapply reachable33_step; [apply reachable33_init | apply step33_setTiming].
  - apply step33_distance.
Defined.

(** X18. A watcher turn compares one unaveraged reading: it makes exactly one
    pulse measurement, pauses 10 ms, enters the handler at most once and
    always ends in a pause of 50 ms; it changes nothing of the stored
    configuration. *)
Theorem watcher_turn_is_one_shot :
  forall (f : ultrasonic.Fiber) (s : ultrasonic.State),
    let s' := snd (ultrasonic.poll f s) in
    let new := events_since (log (ultrasonic.hw s)) (log (ultrasonic.hw s')) in
    n_pulse (ultrasonic.hw s') = (n_pulse (ultrasonic.hw s) + 1)%nat /\
    polarities new = [High] /\
    pauses 10 new = 1%nat /\ pauses 50 new = 1%nat /\
    last new (Pause 0) = Pause 50 /\
    (length (handler_runs new) <= 1)%nat /\
    (ultrasonic._trig s', ultrasonic._echo s', ultrasonic._maxUs s',
     ultrasonic._polling s', ultrasonic.fibers s')
    = (ultrasonic._trig s, ultrasonic._echo s, ultrasonic._maxUs s,
       ultrasonic._polling s, ultrasonic.fibers s).
Proof.
  intros f s. cbv zeta. rewrite poll_run. cbn [snd]. unfold with_hw.
  cbn [ultrasonic.hw log n_pulse ultrasonic._trig ultrasonic._echo
       ultrasonic._maxUs ultrasonic._polling ultrasonic.fibers].
  rewrite events_since_app.
  destruct (Qltb 0 _ && Qltb _ _); cbn; repeat split; lia.
Qed.
